(** * Heredity: exact inference over a family pedigree

    A shallow embedding of [heredity.py], twice.  In the first reading
    Python floats are exact rationals ([Q]); the theorems stated over it are
    those whose conclusion rounding cannot change: which exception is raised,
    which configurations are visited, which bucket receives which term,
    which bucket stays at zero.  [Module Float64] is the same program over
    primitive binary64 floats, operation for operation; what rounding
    decides is stated and checked there.

    Python sets of names are [gset string]; the order in which a set is
    iterated is a parameter [order] of the development, so that what the
    program computes can be compared across iteration orders.  Dicts keyed
    by person keep their insertion order and are association lists. *)

From Stdlib Require Import QArith Qabs Lqa.
From Stdlib Require Import Floats.PrimFloat.
From stdpp Require Import base gmap sets list strings pretty.

Set Warnings "-inexact-float,-clear-no-such-hyp".
Local Open Scope Q_scope.

(** ** Exceptions *)

Inductive exn : Type :=
  | KeyError
  | IndexError
  | ZeroDivisionError.

Inductive result (A : Type) : Type :=
  | Ok (a : A)
  | Raise (e : exn).
Arguments Ok {A} a.
Arguments Raise {A} e.

#[global] Instance result_ret : MRet result := @Ok.

#[global] Instance result_bind : MBind result := λ A B k r,
  match r with
  | Ok a => k a
  | Raise e => Raise e
  end.

Definition from_option {A : Type} (e : exn) (o : option A) : result A :=
  match o with
  | Some a => Ok a
  | None => Raise e
  end.

(** [for x in l: acc = body(acc, x)], stopping at the first exception. *)
Fixpoint for_each {A St : Type} (body : St → A → result St) (l : list A)
    (acc : St) : result St :=
  match l with
  | [] => Ok acc
  | x :: l' => acc' ← body acc x; for_each body l' acc'
  end.

(** ** PROBS *)

Definition PROBS_gene (genes : nat) : option Q :=
  match genes with
  | 2%nat => Some 0.01
  | 1%nat => Some 0.03
  | 0%nat => Some 0.96
  | _ => None
  end.

Definition PROBS_trait (genes : nat) (trait : bool) : option Q :=
  match genes, trait with
  | 2%nat, true => Some 0.65
  | 2%nat, false => Some 0.35
  | 1%nat, true => Some 0.56
  | 1%nat, false => Some 0.44
  | 0%nat, true => Some 0.01
  | 0%nat, false => Some 0.99
  | _, _ => None
  end.

Definition PROBS_mutation : Q := 0.01.

(** ** The 3 x 3 x 3 array *)

Abbreviation matrix := (list (list (list Q))).

Definition zeros : matrix := replicate 3 (replicate 3 (replicate 3 0)).

(** [m[x][y][z]]; [None] stands for numpy's IndexError. *)
Definition getitem {A : Type} (m : list (list (list A))) (x y z : nat) : option A :=
  row ← m !! x; col ← row !! y; col !! z.

(** [m[x][y][z] = v]. *)
Definition setitem {A : Type} (m : list (list (list A))) (x y z : nat) (v : A)
  : list (list (list A)) :=
  alter (alter (<[z := v]>) y) x m.

(** A read at literal indices inside the array's bounds. *)
Definition entry (m : matrix) (x y z : nat) : Q := default 0 (getitem m x y z).

(** ** create_gene_matrix *)

Definition create_gene_matrix : matrix :=
  let P_M := PROBS_mutation in
  let P_NM := 1 - PROBS_mutation in
  let gene_matrix := zeros in
  let gene_matrix := setitem gene_matrix 0 0 0 (P_NM^2) in
  let gene_matrix := setitem gene_matrix 0 1 0 (0.5 * P_M * P_NM + 0.5 * P_NM^2) in
  let gene_matrix := setitem gene_matrix 0 2 0 (P_NM * P_M) in
  let gene_matrix := setitem gene_matrix 0 0 1 (entry gene_matrix 0 1 0) in
  let gene_matrix := setitem gene_matrix 0 1 1
                       ((0.5 * P_M)^2 + 0.5 * P_M * P_NM + (0.5 * P_NM)^2) in
  let gene_matrix := setitem gene_matrix 0 2 1 (0.5 * P_NM * P_M) in
  let gene_matrix := setitem gene_matrix 0 0 2 (entry gene_matrix 0 2 0) in
  let gene_matrix := setitem gene_matrix 0 1 2 (entry gene_matrix 0 2 1) in
  let gene_matrix := setitem gene_matrix 0 2 2 (P_M^2) in

  let gene_matrix := setitem gene_matrix 1 0 0 (2 * P_M * P_NM) in
  let gene_matrix := setitem gene_matrix 1 1 0
                       (0.5 * P_NM^2 + P_M * P_NM + 0.5 * P_M^2) in
  let gene_matrix := setitem gene_matrix 1 2 0 (P_M^2 + P_NM^2) in
  let gene_matrix := setitem gene_matrix 1 0 1 (entry gene_matrix 1 1 0) in
  let gene_matrix := setitem gene_matrix 1 1 1 (entry gene_matrix 1 1 0) in
  let gene_matrix := setitem gene_matrix 1 2 1 (entry gene_matrix 1 1 0) in
  let gene_matrix := setitem gene_matrix 1 0 2 (entry gene_matrix 1 2 0) in
  let gene_matrix := setitem gene_matrix 1 1 2 (entry gene_matrix 1 2 1) in
  let gene_matrix := setitem gene_matrix 1 2 2 (entry gene_matrix 1 0 0) in

  let gene_matrix := setitem gene_matrix 2 0 0 (entry gene_matrix 0 2 2) in
  let gene_matrix := setitem gene_matrix 2 1 0 (0.5 * P_M^2 + 0.5 * P_M * P_NM) in
  let gene_matrix := setitem gene_matrix 2 2 0 (entry gene_matrix 0 2 0) in
  let gene_matrix := setitem gene_matrix 2 0 1 (entry gene_matrix 2 1 0) in
  let gene_matrix := setitem gene_matrix 2 1 1
                       (0.25 * P_M^2 + 0.5 * P_M * P_NM + 0.25 * P_NM^2) in
  let gene_matrix := setitem gene_matrix 2 2 1 (entry gene_matrix 0 1 0) in
  let gene_matrix := setitem gene_matrix 2 0 2 (entry gene_matrix 2 2 0) in
  let gene_matrix := setitem gene_matrix 2 1 2 (entry gene_matrix 2 2 1) in
  let gene_matrix := setitem gene_matrix 2 2 2 (entry gene_matrix 0 0 0) in
  gene_matrix.

(** The derivation of the transition table from the mutation rate, as the
    specification words it: [q g] is the probability that a parent with [g]
    copies passes the variant allele on. *)
Definition q (m : Q) (g : nat) : Q :=
  match g with
  | 0%nat => m
  | 1%nat => 0.5
  | _ => 1 - m
  end.

Definition derived (m : Q) (c pA pB : nat) : Q :=
  match c with
  | 2%nat => q m pA * q m pB
  | 0%nat => (1 - q m pA) * (1 - q m pB)
  | _ => q m pA * (1 - q m pB) + (1 - q m pA) * q m pB
  end.

Definition row_sum (m : matrix) (pA pB : nat) : Q :=
  entry m 0 pA pB + entry m 1 pA pB + entry m 2 pA pB.

(** ** The person table *)

Record person : Type := Person {
  name : string;
  mother : option string;
  father : option string;
  trait : option bool
}.

(** A dict keyed by person name, in insertion order. *)
Abbreviation dict V := (list (string * V)).

Definition keys {V : Type} (d : dict V) : list string := d.*1.

(** [d[k]]; [None] stands for KeyError. *)
Fixpoint dict_get {V : Type} (d : dict V) (k : string) : option V :=
  match d with
  | [] => None
  | (k', v) :: d' => if decide (k' = k) then Some v else dict_get d' k
  end.

(** ** powerset *)

(** [itertools.combinations(pool, r)]: the [r]-length subsequences of [pool],
    in lexicographic order of their positions. *)
Fixpoint combinations {A : Type} (pool : list A) (r : nat) : list (list A) :=
  match r, pool with
  | O, _ => [[]]
  | S _, [] => []
  | S r', x :: pool' =>
      (cons x <$> combinations pool' r') ++ combinations pool' r
  end.

Section Enumeration.

(** The order in which Python iterates a set. *)
Variable order : gset string → list string.

Definition powerset (s : gset string) : list (gset string) :=
  let s := order s in
  list_to_set <$> (r ← seq 0 (length s + 1); combinations s r).

End Enumeration.

(** ** joint_probability *)

Definition genes_of (one_gene two_genes : gset string) (person : string) : nat :=
  if decide (person ∈ one_gene) then 1%nat
  else if decide (person ∈ two_genes) then 2%nat
  else 0%nat.

Definition trait_of (have_trait : gset string) (person : string) : bool :=
  if decide (person ∈ have_trait) then true else false.

(** The dictionary [ref] of lines 150-165. *)
Definition make_ref (people : dict person)
    (one_gene two_genes have_trait : gset string) : gmap string (nat * bool) :=
  foldl (λ ref person,
           let genes := genes_of one_gene two_genes person in
           let trait := trait_of have_trait person in
           <[person := (genes, trait)]> ref)
        ∅ (keys people).

(** One round of the loop of lines 167-178. *)
Definition person_factor (people : dict person)
    (ref : gmap string (nat * bool)) (gene_matrix : matrix)
    (joint_prob : list Q) (person : string) : result (list Q) :=
  p ← from_option KeyError (dict_get people person);
  match mother p with
  | None =>
      r ← from_option KeyError (ref !! person);
      gene_prob ← from_option KeyError (PROBS_gene r.1);
      trait_prob ← from_option KeyError (PROBS_trait r.1 r.2);
      Ok (joint_prob ++ [gene_prob * trait_prob])
  | Some m =>
      r ← from_option KeyError (ref !! person);
      rf ← from_option KeyError (f ← father p; ref !! f);
      rm ← from_option KeyError (ref !! m);
      gene_prob ← from_option IndexError (getitem gene_matrix r.1 rf.1 rm.1);
      trait_prob ← from_option KeyError (PROBS_trait r.1 r.2);
      Ok (joint_prob ++ [gene_prob * trait_prob])
  end.

Definition joint_probability (people : dict person)
    (one_gene two_genes have_trait : gset string) : result Q :=
  let gene_matrix := create_gene_matrix in
  let ref := make_ref people one_gene two_genes have_trait in
  joint_prob ← for_each (person_factor people ref gene_matrix) (keys people) [];
  Ok (foldl Qmult 1 joint_prob).

(** ** update *)

Record distribution : Type := Distribution {
  gene_0 : Q;
  gene_1 : Q;
  gene_2 : Q;
  trait_True : Q;
  trait_False : Q
}.

Definition add_gene (n : nat) (p : Q) (d : distribution) : distribution :=
  match n with
  | 0%nat => Distribution (gene_0 d + p) (gene_1 d) (gene_2 d) (trait_True d) (trait_False d)
  | 1%nat => Distribution (gene_0 d) (gene_1 d + p) (gene_2 d) (trait_True d) (trait_False d)
  | _ => Distribution (gene_0 d) (gene_1 d) (gene_2 d + p) (trait_True d) (trait_False d)
  end.

Definition add_trait (t : bool) (p : Q) (d : distribution) : distribution :=
  if t
  then Distribution (gene_0 d) (gene_1 d) (gene_2 d) (trait_True d + p) (trait_False d)
  else Distribution (gene_0 d) (gene_1 d) (gene_2 d) (trait_True d) (trait_False d + p).

Definition update_person (one_gene two_genes have_trait : gset string) (p : Q)
    (person : string) (d : distribution) : distribution :=
  let d :=
    if decide (person ∈ one_gene) then add_gene 1 p d
    else if decide (person ∈ two_genes) then add_gene 2 p d
    else add_gene 0 p d in
  if decide (person ∈ have_trait) then add_trait true p d
  else add_trait false p d.

Definition update (probabilities : dict distribution)
    (one_gene two_genes have_trait : gset string) (p : Q) : dict distribution :=
  (λ '(person, d),
     (person, update_person one_gene two_genes have_trait p person d))
  <$> probabilities.

(** ** normalize *)

Definition gene_total (d : distribution) : Q := 0 + gene_0 d + gene_1 d + gene_2 d.
Definition trait_total (d : distribution) : Q := 0 + trait_True d + trait_False d.

(** [1 / x], which Python refuses for a zero [x]. *)
Definition reciprocal (x : Q) : result Q :=
  if Qeq_bool x 0 then Raise ZeroDivisionError else Ok (1 / x).

Definition normalize_person (d : distribution) : result distribution :=
  alpha ← reciprocal (gene_total d);
  beta ← reciprocal (trait_total d);
  Ok (Distribution (gene_0 d * alpha) (gene_1 d * alpha) (gene_2 d * alpha)
                   (trait_True d * beta) (trait_False d * beta)).

Definition normalize (probabilities : dict distribution)
  : result (dict distribution) :=
  for_each (λ done '(person, d),
              d' ← normalize_person d; Ok (done ++ [(person, d')]))
           probabilities [].

(** ** main *)

(** [any(f(x) for x in l)]: stops at the first true value. *)
Fixpoint any {A : Type} (f : A → result bool) (l : list A) : result bool :=
  match l with
  | [] => Ok false
  | x :: l' => b ← f x; if (b : bool) then Ok true else any f l'
  end.

Definition zero_distribution : distribution := Distribution 0 0 0 0 0.

Section Pipeline.

Variable order : gset string → list string.

(** Lines 69-73. *)
Definition fails_evidence (people : dict person)
    (names have_trait : gset string) : result bool :=
  any (λ person,
         p ← from_option KeyError (dict_get people person);
         Ok (match trait p with
             | Some t => negb (eqb t (bool_decide (person ∈ have_trait)))
             | None => false
             end))
      (order names).

(** Lines 78-83: the two loops over the gene sets. *)
Definition gene_loops (people : dict person) (names have_trait : gset string)
    (probabilities : dict distribution) : result (dict distribution) :=
  for_each (λ (probabilities : dict distribution) (one_gene : gset string),
    for_each (λ (probabilities : dict distribution) (two_genes : gset string),
      p ← joint_probability people one_gene two_genes have_trait;
      Ok (update probabilities one_gene two_genes have_trait p))
    (powerset order (names ∖ one_gene)) probabilities)
  (powerset order names) probabilities.

(** Lines 66-83: one round of the loop over the trait sets. *)
Definition trait_round (people : dict person) (names : gset string)
    (probabilities : dict distribution) (have_trait : gset string)
  : result (dict distribution) :=
  fails ← fails_evidence people names have_trait;
  if (fails : bool) then Ok probabilities
  else gene_loops people names have_trait probabilities.

(** Lines 49-83: the table of weights before it is normalized. *)
Definition accumulate (people : dict person) : result (dict distribution) :=
  let probabilities := (λ person, (person, zero_distribution)) <$> keys people in
  let names : gset string := list_to_set (keys people) in
  for_each (trait_round people names) (powerset order names) probabilities.

Definition main (people : dict person) : result (dict distribution) :=
  probabilities ← accumulate people;
  normalize probabilities.

End Pipeline.

(** The iteration order used to run the model: stdpp's [elements]. *)
Definition default_order : gset string → list string := elements.

(** The family of [data/family0.csv]. *)
Definition family0 : dict person :=
  [ ("Harry", Person "Harry" (Some "Lily") (Some "James") None);
    ("James", Person "James" None None (Some true));
    ("Lily", Person "Lily" None None (Some false)) ]%string.

Definition loner : dict person := [ ("Ann", Person "Ann" None None None) ]%string.

(** ** Vocabulary of the statements *)

(** Every way to drop elements from a list, keeping the rest in order. *)
Fixpoint subsequences {A : Type} (l : list A) : list (list A) :=
  match l with
  | [] => [[]]
  | x :: l' => (cons x <$> subsequences l') ++ subsequences l'
  end.

(** An iteration order lists the elements of a set, each once. *)
Definition iteration_order (order : gset string → list string) : Prop :=
  ∀ X, order X ≡ₚ elements X.

(** The pairs (one_gene, two_genes) met by the loops of lines 78-79, in the
    order they are met. *)
Definition gene_pairs (order : gset string → list string) (names : gset string)
  : list (gset string * gset string) :=
  one_gene ← powerset order names;
  two_genes ← powerset order (names ∖ one_gene);
  [(one_gene, two_genes)].

(** One round of the loops over the gene sets (lines 82-83). *)
Definition gene_step (people : dict person) (have_trait : gset string)
    (probabilities : dict distribution) (pair : gset string * gset string)
  : result (dict distribution) :=
  p ← joint_probability people pair.1 pair.2 have_trait;
  Ok (update probabilities pair.1 pair.2 have_trait p).

(** Every name that [joint_probability] looks up for [person] is a key:
    the person itself and, when a mother is recorded, both parents. *)
Definition person_known (people : dict person) (person : string) : bool :=
  match dict_get people person with
  | Some p =>
      match mother p with
      | None => true
      | Some m =>
          bool_decide (m ∈ keys people)
          && match father p with
             | Some f => bool_decide (f ∈ keys people)
             | None => false
             end
      end
  | None => false
  end.

Definition parents_known (people : dict person) : bool :=
  forallb (person_known people) (keys people).

(** What lines 169-178 append for [person] when nothing is raised. *)
Definition person_value (people : dict person)
    (one_gene two_genes have_trait : gset string) (person : string) : Q :=
  match dict_get people person with
  | Some p =>
      let genes := genes_of one_gene two_genes person in
      let gene_prob :=
        match mother p with
        | None => default 0 (PROBS_gene genes)
        | Some m =>
            entry create_gene_matrix genes
              (genes_of one_gene two_genes (default ""%string (father p)))
              (genes_of one_gene two_genes m)
        end in
      gene_prob * default 0 (PROBS_trait genes (trait_of have_trait person))
  | None => 0
  end.

Definition joint_value (people : dict person)
    (one_gene two_genes have_trait : gset string) : Q :=
  foldl Qmult 1 (person_value people one_gene two_genes have_trait <$> keys people).

(** The two factors of a person, as the specification words them: the gene
    factor is the unconditional lookup for a person without recorded parents
    and otherwise the transition entry at the person's, the father's and the
    mother's gene counts; the trait factor is the lookup of the trait given
    the gene count.  The specification's person has both parents or
    neither, and states no factor for one parent alone. *)
Definition gene_factor (one_gene two_genes : gset string)
    (k : string) (p : person) : Q :=
  match father p, mother p with
  | None, None => default 0 (PROBS_gene (genes_of one_gene two_genes k))
  | Some f, Some m =>
      entry create_gene_matrix (genes_of one_gene two_genes k)
        (genes_of one_gene two_genes f) (genes_of one_gene two_genes m)
  | _, _ => 0
  end.

Definition trait_factor (one_gene two_genes have_trait : gset string)
    (k : string) : Q :=
  default 0 (PROBS_trait (genes_of one_gene two_genes k) (trait_of have_trait k)).

Definition product (l : list Q) : Q := foldr Qmult 1 l.

(** The person table the specification asks for: names are keys of a dict,
    a person has both parents or neither, and every parent is in the table. *)
Definition well_formed (people : dict person) : Prop :=
  NoDup (keys people)
  ∧ ∀ k p, (k, p) ∈ people →
      (mother p = None ↔ father p = None)
      ∧ (∀ m, mother p = Some m → m ∈ keys people)
      ∧ (∀ f, father p = Some f → f ∈ keys people).

(** ** Buckets and calls of [update] *)

Definition gene_bucket (d : distribution) (n : nat) : Q :=
  match n with
  | 0%nat => gene_0 d
  | 1%nat => gene_1 d
  | _ => gene_2 d
  end.

Definition trait_bucket (d : distribution) (t : bool) : Q :=
  if t then trait_True d else trait_False d.

(** The arguments of one call of [update]. *)
Record call : Type := Call {
  call_one_gene : gset string;
  call_two_genes : gset string;
  call_have_trait : gset string;
  call_p : Q
}.

Definition update_call (probabilities : dict distribution) (c : call)
  : dict distribution :=
  update probabilities (call_one_gene c) (call_two_genes c) (call_have_trait c)
         (call_p c).


Definition zero_table (names : list string) : dict distribution :=
  (λ person, (person, zero_distribution)) <$> names.

(** What a run of calls of [update] leaves in the entry of [person]. *)
Definition person_after (person : string) (d : distribution) (calls : list call)
  : distribution :=
  foldl (λ d c, update_person (call_one_gene c) (call_two_genes c)
                  (call_have_trait c) (call_p c) person d)
        d calls.

(** ** The accumulation as a list of calls *)

Definition names_of (people : dict person) : gset string :=
  list_to_set (keys people).

(** [people[person]["trait"]] *)
Definition evidence (people : dict person) (person : string) : option bool :=
  p ← dict_get people person; trait p.

(** The test of lines 70-71 for one person. *)
Definition mismatch (people : dict person) (have_trait : gset string)
    (person : string) : bool :=
  match evidence people person with
  | Some t => negb (eqb t (bool_decide (person ∈ have_trait)))
  | None => false
  end.

Definition rejected (order : gset string → list string) (people : dict person)
    (names have_trait : gset string) : bool :=
  existsb (mismatch people have_trait) (order names).

(** The calls of [update] made for one accepted [have_trait]. *)
Definition calls_for (order : gset string → list string) (people : dict person)
    (names have_trait : gset string) : list call :=
  (λ pair, Call pair.1 pair.2 have_trait
                (joint_value people pair.1 pair.2 have_trait))
  <$> gene_pairs order names.

(** All the calls of [update] made by the loops of [main], in order. *)
Definition calls (order : gset string → list string) (people : dict person)
  : list call :=
  have_trait ← powerset order (names_of people);
  if rejected order people (names_of people) have_trait then []
  else calls_for order people (names_of people) have_trait.

(** The persons whose evidence is that they have the trait. *)
Definition known_true (people : dict person) : gset string :=
  list_to_set (filter (λ k, evidence people k = Some true) (keys people)).

(** ** Vocabulary for [normalize] *)

(** Both sums that [normalize] divides by are non-zero. *)
Definition normalizable (d : distribution) : bool :=
  negb (Qeq_bool (gene_total d) 0) && negb (Qeq_bool (trait_total d) 0).

(** What lines 265-274 leave in the entry of a normalizable person. *)
Definition normalized (d : distribution) : distribution :=
  let alpha := 1 / gene_total d in
  let beta := 1 / trait_total d in
  Distribution (gene_0 d * alpha) (gene_1 d * alpha) (gene_2 d * alpha)
               (trait_True d * beta) (trait_False d * beta).


(** Some person with a recorded mother has a parent that is not a key of
    the table: the mother, or the father (also when no father is recorded). *)
Definition missing_parent (people : dict person) : Prop :=
  ∃ k p m, dict_get people k = Some p ∧ mother p = Some m
           ∧ (m ∉ keys people ∨ ∀ f, father p = Some f → f ∉ keys people).

(** The sum of the [p]s of the calls selected by [P]. *)
Definition weight_where (P : call → bool) (calls : list call) : Q :=
  foldr Qplus 0 ((λ c, if P c then call_p c else 0) <$> calls).

(** The calls in which [person] is given [n] copies of the gene. *)
Definition has_genes (person : string) (n : nat) (c : call) : bool :=
  bool_decide (genes_of (call_one_gene c) (call_two_genes c) person = n).

(** The calls in which [person] is given the trait value [b]. *)
Definition has_trait (person : string) (b : bool) (c : call) : bool :=
  bool_decide (trait_of (call_have_trait c) person = b).

(** Another iteration order, to compare runs with. *)
Definition reversed_order : gset string → list string :=
  λ X, reverse (elements X).


(** ** load_data

    The rows are those [csv.DictReader] yields: a dict from column name to
    the text of the cell.  Reading the file itself is left out. *)

(** [d[k] = v]: an existing key keeps its place, a new key goes last. *)
Fixpoint dict_set {V : Type} (d : dict V) (k : string) (v : V) : dict V :=
  match d with
  | [] => [(k, v)]
  | (k', v') :: d' =>
      if decide (k' = k) then (k, v) :: d' else (k', v') :: dict_set d' k v
  end.

(** [s or None] for a string [s]. *)
Definition or_None (s : string) : option string :=
  if decide (s = ""%string) then None else Some s.

(** Lines 114-115. *)
Definition parse_trait (s : string) : option bool :=
  if decide (s = "1"%string) then Some true
  else if decide (s = "0"%string) then Some false
  else None.

(** Lines 109-116: one round of the loop over the rows. *)
Definition load_row (data : dict person) (row : gmap string string)
  : result (dict person) :=
  name ← from_option KeyError (row !! "name"%string);
  mother ← from_option KeyError (row !! "mother"%string);
  father ← from_option KeyError (row !! "father"%string);
  trait ← from_option KeyError (row !! "trait"%string);
  Ok (dict_set data name
        (Person name (or_None mother) (or_None father) (parse_trait trait))).

Definition load_data (rows : list (gmap string string)) : result (dict person) :=
  for_each load_row rows [].

(** The row has the four columns that [load_data] reads. *)
Definition complete (row : gmap string string) : Prop :=
  is_Some (row !! "name"%string) ∧ is_Some (row !! "mother"%string)
  ∧ is_Some (row !! "father"%string) ∧ is_Some (row !! "trait"%string).

(** The person that [load_data] stores for a complete row. *)
Definition person_of_row (row : gmap string string) : person :=
  Person (default ""%string (row !! "name"%string))
         (or_None (default ""%string (row !! "mother"%string)))
         (or_None (default ""%string (row !! "father"%string)))
         (parse_trait (default ""%string (row !! "trait"%string))).

(** The rows of [data/family0.csv]. *)
Definition family0_rows : list (gmap string string) :=
  [ {[ "name" := "Harry"; "mother" := "Lily"; "father" := "James"; "trait" := "" ]};
    {[ "name" := "James"; "mother" := ""; "father" := ""; "trait" := "1" ]};
    {[ "name" := "Lily"; "mother" := ""; "father" := ""; "trait" := "0" ]} ]%string.

(** The person with mother and father exchanged. *)
Definition swap_parents (p : person) : person :=
  Person (name p) (father p) (mother p) (trait p).

Definition both_or_neither (people : dict person) : Prop :=
  ∀ k p, (k, p) ∈ people → (mother p = None ↔ father p = None).


(** ** The program in binary64

    The same functions over primitive floats, where every literal is the
    nearest binary64 value and every operation rounds as Python's does.
    [x**2] is written [x * x]. *)

Module Float64.

Local Open Scope float_scope.

(** *** The transition table *)

Abbreviation matrix := (list (list (list float))).

Definition PROBS_mutation : float := 0.01.

Definition zeros : matrix := replicate 3 (replicate 3 (replicate 3 0)).

Definition entry (m : matrix) (x y z : nat) : float := default 0 (getitem m x y z).

Definition sq (x : float) : float := x * x.

Definition create_gene_matrix : matrix :=
  let P_M := PROBS_mutation in
  let P_NM := 1 - PROBS_mutation in
  let gene_matrix := zeros in
  let gene_matrix := setitem gene_matrix 0 0 0 (sq P_NM) in
  let gene_matrix := setitem gene_matrix 0 1 0 (0.5 * P_M * P_NM + 0.5 * sq P_NM) in
  let gene_matrix := setitem gene_matrix 0 2 0 (P_NM * P_M) in
  let gene_matrix := setitem gene_matrix 0 0 1 (entry gene_matrix 0 1 0) in
  let gene_matrix := setitem gene_matrix 0 1 1
                       (sq (0.5 * P_M) + 0.5 * P_M * P_NM + sq (0.5 * P_NM)) in
  let gene_matrix := setitem gene_matrix 0 2 1 (0.5 * P_NM * P_M) in
  let gene_matrix := setitem gene_matrix 0 0 2 (entry gene_matrix 0 2 0) in
  let gene_matrix := setitem gene_matrix 0 1 2 (entry gene_matrix 0 2 1) in
  let gene_matrix := setitem gene_matrix 0 2 2 (sq P_M) in

  let gene_matrix := setitem gene_matrix 1 0 0 (2 * P_M * P_NM) in
  let gene_matrix := setitem gene_matrix 1 1 0
                       (0.5 * sq P_NM + P_M * P_NM + 0.5 * sq P_M) in
  let gene_matrix := setitem gene_matrix 1 2 0 (sq P_M + sq P_NM) in
  let gene_matrix := setitem gene_matrix 1 0 1 (entry gene_matrix 1 1 0) in
  let gene_matrix := setitem gene_matrix 1 1 1 (entry gene_matrix 1 1 0) in
  let gene_matrix := setitem gene_matrix 1 2 1 (entry gene_matrix 1 1 0) in
  let gene_matrix := setitem gene_matrix 1 0 2 (entry gene_matrix 1 2 0) in
  let gene_matrix := setitem gene_matrix 1 1 2 (entry gene_matrix 1 2 1) in
  let gene_matrix := setitem gene_matrix 1 2 2 (entry gene_matrix 1 0 0) in

  let gene_matrix := setitem gene_matrix 2 0 0 (entry gene_matrix 0 2 2) in
  let gene_matrix := setitem gene_matrix 2 1 0 (0.5 * sq P_M + 0.5 * P_M * P_NM) in
  let gene_matrix := setitem gene_matrix 2 2 0 (entry gene_matrix 0 2 0) in
  let gene_matrix := setitem gene_matrix 2 0 1 (entry gene_matrix 2 1 0) in
  let gene_matrix := setitem gene_matrix 2 1 1
                       (0.25 * sq P_M + 0.5 * P_M * P_NM + 0.25 * sq P_NM) in
  let gene_matrix := setitem gene_matrix 2 2 1 (entry gene_matrix 0 1 0) in
  let gene_matrix := setitem gene_matrix 2 0 2 (entry gene_matrix 2 2 0) in
  let gene_matrix := setitem gene_matrix 2 1 2 (entry gene_matrix 2 2 1) in
  let gene_matrix := setitem gene_matrix 2 2 2 (entry gene_matrix 0 0 0) in
  gene_matrix.

Definition row_sum (m : matrix) (pA pB : nat) : float :=
  entry m 0 pA pB + entry m 1 pA pB + entry m 2 pA pB.

Definition q (m : float) (g : nat) : float :=
  match g with
  | 0%nat => m
  | 1%nat => 0.5
  | _ => 1 - m
  end.

Definition derived (m : float) (c pA pB : nat) : float :=
  match c with
  | 2%nat => q m pA * q m pB
  | 0%nat => (1 - q m pA) * (1 - q m pB)
  | _ => q m pA * (1 - q m pB) + (1 - q m pA) * q m pB
  end.

(** [|x - y| <= tol], the comparison behind every "within 1e-9". *)
Definition within (tol x y : float) : bool := PrimFloat.leb (abs (x - y)) tol.

(** *** The accumulators, [update] and [normalize] in binary64

    Python starts every bucket and every sum at the integer 0, and adding
    a float to it gives that float; the buckets here start at 0.0, with the
    same values throughout. *)

Record distribution : Type := Distribution {
  gene_0 : float;
  gene_1 : float;
  gene_2 : float;
  trait_True : float;
  trait_False : float
}.

Definition zero_distribution : distribution := Distribution 0 0 0 0 0.

Definition gene_bucket (d : distribution) (n : nat) : float :=
  match n with
  | 0%nat => gene_0 d
  | 1%nat => gene_1 d
  | _ => gene_2 d
  end.

Definition trait_bucket (d : distribution) (t : bool) : float :=
  if t then trait_True d else trait_False d.

Definition add_gene (n : nat) (p : float) (d : distribution) : distribution :=
  match n with
  | 0%nat => Distribution (gene_0 d + p) (gene_1 d) (gene_2 d) (trait_True d) (trait_False d)
  | 1%nat => Distribution (gene_0 d) (gene_1 d + p) (gene_2 d) (trait_True d) (trait_False d)
  | _ => Distribution (gene_0 d) (gene_1 d) (gene_2 d + p) (trait_True d) (trait_False d)
  end.

Definition add_trait (t : bool) (p : float) (d : distribution) : distribution :=
  if t
  then Distribution (gene_0 d) (gene_1 d) (gene_2 d) (trait_True d + p) (trait_False d)
  else Distribution (gene_0 d) (gene_1 d) (gene_2 d) (trait_True d) (trait_False d + p).

Definition update_person (one_gene two_genes have_trait : gset string) (p : float)
    (person : string) (d : distribution) : distribution :=
  let d :=
    if decide (person ∈ one_gene) then add_gene 1 p d
    else if decide (person ∈ two_genes) then add_gene 2 p d
    else add_gene 0 p d in
  if decide (person ∈ have_trait) then add_trait true p d
  else add_trait false p d.

Definition update (probabilities : dict distribution)
    (one_gene two_genes have_trait : gset string) (p : float) : dict distribution :=
  (λ '(person, d),
     (person, update_person one_gene two_genes have_trait p person d))
  <$> probabilities.

(** The arguments of one call of [update]. *)
Record call : Type := Call {
  call_one_gene : gset string;
  call_two_genes : gset string;
  call_have_trait : gset string;
  call_p : float
}.

Definition update_call (probabilities : dict distribution) (c : call)
  : dict distribution :=
  update probabilities (call_one_gene c) (call_two_genes c) (call_have_trait c)
         (call_p c).

Definition zero_table (names : list string) : dict distribution :=
  (λ person, (person, zero_distribution)) <$> names.

(** What a run of calls of [update] leaves in the entry of [person]. *)
Definition person_after (person : string) (d : distribution) (calls : list call)
  : distribution :=
  foldl (λ d c, update_person (call_one_gene c) (call_two_genes c)
                  (call_have_trait c) (call_p c) person d)
        d calls.

(** The calls in which [person] is given [n] copies of the gene. *)
Definition has_genes (person : string) (n : nat) (c : call) : bool :=
  bool_decide (genes_of (call_one_gene c) (call_two_genes c) person = n).

(** The calls in which [person] is given the trait value [b]. *)
Definition has_trait (person : string) (b : bool) (c : call) : bool :=
  bool_decide (trait_of (call_have_trait c) person = b).

(** [x1 + x2 + ...], added from the left starting at 0, as a bucket that
    receives [x1], [x2], ... in turn. *)
Definition running_sum (l : list float) : float := foldl PrimFloat.add 0 l.

(** The [p]s of the calls selected by [P], in the order of the calls. *)
Definition selected (P : call → bool) (calls : list call) : list float :=
  call_p <$> List.filter P calls.

(** Lines 265-266: [sum(... for n in range(3))] and [sum(... for t in [True, False])]. *)
Definition gene_total (d : distribution) : float := 0 + gene_0 d + gene_1 d + gene_2 d.
Definition trait_total (d : distribution) : float := 0 + trait_True d + trait_False d.

(** [1 / x]: Python raises for a zero of either sign. *)
Definition reciprocal (x : float) : result float :=
  if PrimFloat.eqb x 0 then Raise ZeroDivisionError else Ok (1 / x).

Definition normalize_person (d : distribution) : result distribution :=
  alpha ← reciprocal (gene_total d);
  beta ← reciprocal (trait_total d);
  Ok (Distribution (gene_0 d * alpha) (gene_1 d * alpha) (gene_2 d * alpha)
                   (trait_True d * beta) (trait_False d * beta)).

Definition normalize (probabilities : dict distribution)
  : result (dict distribution) :=
  for_each (λ done '(person, d),
              d' ← normalize_person d; Ok (done ++ [(person, d')]))
           probabilities [].

(** *** [joint_probability] and the loops of [main] in binary64 *)

Definition PROBS_gene (genes : nat) : option float :=
  match genes with
  | 2%nat => Some 0.01
  | 1%nat => Some 0.03
  | 0%nat => Some 0.96
  | _ => None
  end.

Definition PROBS_trait (genes : nat) (trait : bool) : option float :=
  match genes, trait with
  | 2%nat, true => Some 0.65
  | 2%nat, false => Some 0.35
  | 1%nat, true => Some 0.56
  | 1%nat, false => Some 0.44
  | 0%nat, true => Some 0.01
  | 0%nat, false => Some 0.99
  | _, _ => None
  end.

(** Lines 181-183: [final_prob = 1], then [final_prob *= item] for every item. *)
Definition product (joint_prob : list float) : float := foldl PrimFloat.mul 1 joint_prob.

Definition person_factor (people : dict person)
    (ref : gmap string (nat * bool)) (gene_matrix : matrix)
    (joint_prob : list float) (person : string) : result (list float) :=
  p ← from_option KeyError (dict_get people person);
  match mother p with
  | None =>
      r ← from_option KeyError (ref !! person);
      gene_prob ← from_option KeyError (PROBS_gene r.1);
      trait_prob ← from_option KeyError (PROBS_trait r.1 r.2);
      Ok (joint_prob ++ [gene_prob * trait_prob])
  | Some m =>
      r ← from_option KeyError (ref !! person);
      rf ← from_option KeyError (f ← father p; ref !! f);
      rm ← from_option KeyError (ref !! m);
      gene_prob ← from_option IndexError (getitem gene_matrix r.1 rf.1 rm.1);
      trait_prob ← from_option KeyError (PROBS_trait r.1 r.2);
      Ok (joint_prob ++ [gene_prob * trait_prob])
  end.

Definition joint_probability (people : dict person)
    (one_gene two_genes have_trait : gset string) : result float :=
  let gene_matrix := create_gene_matrix in
  let ref := make_ref people one_gene two_genes have_trait in
  joint_prob ← for_each (person_factor people ref gene_matrix) (keys people) [];
  Ok (product joint_prob).

Section Pipeline.

Variable order : gset string → list string.

Definition gene_loops (people : dict person) (names have_trait : gset string)
    (probabilities : dict distribution) : result (dict distribution) :=
  for_each (λ (probabilities : dict distribution) (one_gene : gset string),
    for_each (λ (probabilities : dict distribution) (two_genes : gset string),
      p ← joint_probability people one_gene two_genes have_trait;
      Ok (update probabilities one_gene two_genes have_trait p))
    (powerset order (names ∖ one_gene)) probabilities)
  (powerset order names) probabilities.

Definition trait_round (people : dict person) (names : gset string)
    (probabilities : dict distribution) (have_trait : gset string)
  : result (dict distribution) :=
  fails ← fails_evidence order people names have_trait;
  if (fails : bool) then Ok probabilities
  else gene_loops people names have_trait probabilities.

Definition accumulate (people : dict person) : result (dict distribution) :=
  let probabilities := (λ person, (person, zero_distribution)) <$> keys people in
  let names : gset string := list_to_set (keys people) in
  for_each (trait_round people names) (powerset order names) probabilities.

Definition main (people : dict person) : result (dict distribution) :=
  probabilities ← accumulate people;
  normalize probabilities.

End Pipeline.

(** *** The accumulation in binary64 as a list of calls *)

(** What lines 169-178 append for [person] when nothing is raised. *)
Definition person_value (people : dict person)
    (one_gene two_genes have_trait : gset string) (person : string) : float :=
  match dict_get people person with
  | Some p =>
      let genes := genes_of one_gene two_genes person in
      let gene_prob :=
        match mother p with
        | None => default 0 (PROBS_gene genes)
        | Some m =>
            entry create_gene_matrix genes
              (genes_of one_gene two_genes (default ""%string (father p)))
              (genes_of one_gene two_genes m)
        end in
      gene_prob * default 0 (PROBS_trait genes (trait_of have_trait person))
  | None => 0
  end.

Definition joint_value (people : dict person)
    (one_gene two_genes have_trait : gset string) : float :=
  product (person_value people one_gene two_genes have_trait <$> keys people).

(** One round of the loops over the gene sets (lines 82-83). *)
Definition gene_step (people : dict person) (have_trait : gset string)
    (probabilities : dict distribution) (pair : gset string * gset string)
  : result (dict distribution) :=
  p ← joint_probability people pair.1 pair.2 have_trait;
  Ok (update probabilities pair.1 pair.2 have_trait p).

(** The calls of [update] made for one accepted [have_trait]. *)
Definition calls_for (order : gset string → list string) (people : dict person)
    (names have_trait : gset string) : list call :=
  (λ pair, Call pair.1 pair.2 have_trait
                (joint_value people pair.1 pair.2 have_trait))
  <$> gene_pairs order names.

(** All the calls of [update] made by the loops of [main], in order. *)
Definition calls (order : gset string → list string) (people : dict person)
  : list call :=
  have_trait ← powerset order (names_of people);
  if rejected order people (names_of people) have_trait then []
  else calls_for order people (names_of people) have_trait.

(** A table of [n] persons without parents and without evidence. *)
Definition crowd (n : nat) : dict person :=
  (λ i, let k := pretty i in (k, Person k None None None)) <$> seq 0 n.

End Float64.


(** * The transition table *)

Definition in_range (c pA pB : nat) : Prop := (c < 3 ∧ pA < 3 ∧ pB < 3)%nat.

Ltac each_index c pA pB :=
  destruct c as [|[|[|c]]]; [ | | | lia];
  destruct pA as [|[|[|pA]]]; [ | | | lia | | | | lia | | | | lia];
  destruct pB as [|[|[|pB]]]; try lia.

Lemma getitem_in_range (c pA pB : nat) :
  in_range c pA pB → is_Some (getitem create_gene_matrix c pA pB).
Proof.
  intros (Hc & HA & HB). each_index c pA pB; vm_compute; eauto.
Qed.

Lemma entry_getitem (m : matrix) (c pA pB : nat) (v : Q) :
  getitem m c pA pB = Some v → entry m c pA pB = v.
Proof. unfold entry. by intros ->. Qed.

(** Everywhere but at child 0 with parents (1, 2) or (2, 1) the table is the
    derived one. *)
Lemma create_gene_matrix_derived_elsewhere (c pA pB : nat) :
  in_range c pA pB →
  (c, pA, pB) ≠ (0, 2, 1)%nat → (c, pA, pB) ≠ (0, 1, 2)%nat →
  entry create_gene_matrix c pA pB == derived PROBS_mutation c pA pB.
Proof.
  intros (Hc & HA & HB) H1 H2.
  each_index c pA pB; try done; vm_compute; reflexivity.
Qed.

(** [C1] The entry for child 0 with parents (2, 1) is [0.5 * P_NM * P_M],
    which is 0.00495, while the derivation gives (1 - q 2) (1 - q 1), which
    is 0.005: the table does not equal the derived one there. *)
Theorem create_gene_matrix_entry_0_2_1 :
  ∃ v, getitem create_gene_matrix 0 2 1 = Some v
       ∧ v == 0.00495
       ∧ derived PROBS_mutation 0 2 1 == 0.005
       ∧ ¬ v == derived PROBS_mutation 0 2 1.
Proof.
  eexists. split; [vm_compute; reflexivity |].
  split; [reflexivity |]. split; [reflexivity |]. discriminate.
Qed.

(** [C2] With parents (2, 1) the three entries add up to 0.99995, which is
    further than 1e-9 away from 1. *)
Theorem create_gene_matrix_row_2_1 :
  row_sum create_gene_matrix 2 1 == 0.99995
  ∧ 1e-9 < Qabs (row_sum create_gene_matrix 2 1 - 1).
Proof. split; [reflexivity | reflexivity]. Qed.

Lemma create_gene_matrix_row_elsewhere (pA pB : nat) :
  (pA < 3)%nat → (pB < 3)%nat →
  (pA, pB) ≠ (2, 1)%nat → (pA, pB) ≠ (1, 2)%nat →
  row_sum create_gene_matrix pA pB == 1.
Proof.
  intros HA HB H1 H2.
  destruct pA as [|[|[|pA]]]; [ | | | lia];
  destruct pB as [|[|[|pB]]]; try lia; try done; vm_compute; reflexivity.
Qed.

(** [C8] The table is symmetric in the two parent indices. *)
Theorem create_gene_matrix_symmetric (c pA pB : nat) :
  in_range c pA pB →
  ∃ v, getitem create_gene_matrix c pA pB = Some v
       ∧ getitem create_gene_matrix c pB pA = Some v.
Proof.
  intros (Hc & HA & HB). each_index c pA pB; eexists; split; vm_compute; reflexivity.
Qed.

Lemma create_gene_matrix_symmetric_witness :
  in_range 0 2 1
  ∧ ∃ v, getitem create_gene_matrix 0 2 1 = Some v
         ∧ getitem create_gene_matrix 0 1 2 = Some v.
Proof.
  assert (H : in_range 0 2 1) by (unfold in_range; lia).
  split; [exact H | exact (create_gene_matrix_symmetric 0 2 1 H)].
Defined.

Lemma create_gene_matrix_positive (c pA pB : nat) :
  in_range c pA pB → 0 < entry create_gene_matrix c pA pB.
Proof.
  intros (Hc & HA & HB). each_index c pA pB; vm_compute; reflexivity.
Qed.

(** The same two defects in binary64: they are far above any rounding. *)
Lemma float64_entry_0_2_1 :
  Float64.within 1e-9 (Float64.entry Float64.create_gene_matrix 0 2 1)
                      (Float64.derived Float64.PROBS_mutation 0 2 1) = false.
Proof. vm_compute. reflexivity. Qed.

Lemma float64_row_2_1 :
  Float64.within 1e-9 (Float64.row_sum Float64.create_gene_matrix 2 1) 1 = false.
Proof. vm_compute. reflexivity. Qed.

Lemma float64_symmetric (c pA pB : nat) :
  getitem Float64.create_gene_matrix c pA pB
  = getitem Float64.create_gene_matrix c pB pA.
Proof.
  destruct c as [|[|[|c]]], pA as [|[|[|pA]]], pB as [|[|[|pB]]];
    vm_compute; reflexivity.
Qed.

(** * The enumeration *)

Section Combinations.
Context {A : Type}.
Implicit Types (l c : list A) (x : A).

Lemma combinations_0 l : combinations l 0 = [[]].
Proof. by destruct l. Qed.

Lemma combinations_overlong l r : (length l < r)%nat → combinations l r = [].
Proof.
  revert r. induction l as [|x l IH]; intros [|r] Hr; simpl in *; try lia; [done|].
  by rewrite !IH by lia.
Qed.

Lemma combinations_nil_from (j n : nat) :
  (0 < j)%nat → (r ← seq j n; combinations (@nil A) r) = [].
Proof.
  revert j. induction n as [|n IH]; intros j Hj; [done|].
  destruct j as [|j]; [lia|]. cbn [seq]. rewrite bind_cons, IH by lia. done.
Qed.

Lemma bind_app_perm {B C : Type} (f g : B → list C) (k : list B) :
  (r ← k; f r ++ g r) ≡ₚ (k ≫= f) ++ (k ≫= g).
Proof.
  induction k as [|b k IH]; [done|]. rewrite !bind_cons, IH.
  rewrite <- !(assoc_L (++)). f_equiv.
  rewrite !(assoc_L (++)). f_equiv. apply Permutation_app_comm.
Qed.

Lemma bind_fmap_inner {B C D : Type} (f : B → list C) (g : C → D) (k : list B) :
  (r ← k; g <$> f r) = g <$> (k ≫= f).
Proof.
  induction k as [|b k IH]; [done|]. by rewrite !bind_cons, fmap_app, IH.
Qed.

Lemma bind_seq_S {B : Type} (f : nat → list B) (j n : nat) :
  (r ← seq (S j) n; f r) = (r ← seq j n; f (S r)).
Proof.
  revert j. induction n as [|n IH]; intros j; [done|].
  cbn [seq]. by rewrite !bind_cons, IH.
Qed.

(** The combinations of every length, chained, are the subsequences. *)
Lemma chain_combinations l n :
  (length l ≤ n)%nat → (r ← seq 0 (S n); combinations l r) ≡ₚ subsequences l.
Proof.
  revert n. induction l as [|x l IH]; intros n Hn.
  - change (seq 0 (S n)) with (0%nat :: seq 1 n).
    rewrite bind_cons, combinations_nil_from by lia. done.
  - simpl in Hn. destruct n as [|n]; [lia|].
    change (seq 0 (S (S n))) with (0%nat :: seq 1 (S n)).
    rewrite bind_cons, (bind_seq_S (combinations (x :: l)) 0 (S n)).
    cbn [combinations subsequences].
    rewrite (bind_app_perm (λ r, cons x <$> combinations l r)
                           (λ r, combinations l (S r))).
    rewrite (bind_fmap_inner (combinations l) (cons x)).
    rewrite (IH n) by lia.
    rewrite Permutation_app_swap_app. f_equiv.
    rewrite <- (IH (S n)) by lia.
    change (seq 0 (S (S n))) with (0%nat :: seq 1 (S n)).
    rewrite bind_cons, combinations_0.
    rewrite (bind_seq_S (combinations l) 0 (S n)). done.
Qed.

Lemma length_subsequences l : length (subsequences l) = (2 ^ length l)%nat.
Proof.
  induction l as [|x l IH]; [done|].
  cbn [subsequences length]. rewrite length_app, length_fmap, IH.
  rewrite Nat.pow_succ_r'. lia.
Qed.

Lemma elem_of_subsequences c l : c ∈ subsequences l ↔ c `sublist_of` l.
Proof.
  revert c. induction l as [|x l IH]; intros c.
  - simpl. rewrite list_elem_of_singleton, sublist_nil_r. done.
  - cbn [subsequences]. rewrite elem_of_app, list_elem_of_fmap, sublist_cons_r.
    setoid_rewrite IH. clear IH. naive_solver.
Qed.

End Combinations.

Lemma list_to_set_sublist (c l : list string) :
  c `sublist_of` l → list_to_set (C := gset string) c ⊆ list_to_set l.
Proof. intros Hc x. rewrite !elem_of_list_to_set. intros ?. by eapply elem_of_sublist. Qed.

(** The subsequences of a duplicate-free list are as many sets. *)
Lemma NoDup_subsequences_sets (l : list string) :
  NoDup l → NoDup (list_to_set (C := gset string) <$> subsequences l).
Proof.
  induction 1 as [|x l Hx Hl IH]; [apply NoDup_singleton|].
  cbn [subsequences]. rewrite fmap_app, <- list_fmap_compose.
  assert (Hfresh : ∀ c, c ∈ subsequences l → x ∉ list_to_set (C := gset string) c).
  { intros c Hc%elem_of_subsequences Hin%elem_of_list_to_set.
    apply Hx. by eapply elem_of_sublist. }
  apply NoDup_app. split_and!; [| |done].
  - assert (Heq : (list_to_set ∘ cons x <$> subsequences l)
                  = ((λ X : gset string, {[x]} ∪ X) <$> (list_to_set <$> subsequences l))).
    { by rewrite <- list_fmap_compose. }
    rewrite Heq. apply NoDup_fmap_2_strong; [|done].
    intros X Y (c & -> & Hc)%list_elem_of_fmap (d & -> & Hd)%list_elem_of_fmap HXY.
    apply Hfresh in Hc, Hd. set_solver.
  - intros X (c & -> & Hc)%list_elem_of_fmap (d & Heq & Hd)%list_elem_of_fmap.
    apply Hfresh in Hd. apply Hd. rewrite <- Heq. simpl. set_solver.
Qed.

Lemma elem_of_subsequences_sets (l : list string) (X : gset string) :
  X ∈ list_to_set (C := gset string) <$> subsequences l ↔ X ⊆ list_to_set l.
Proof.
  split.
  - intros (c & -> & Hc%elem_of_subsequences)%list_elem_of_fmap.
    by apply list_to_set_sublist.
  - revert X. induction l as [|x l IH]; intros X HX.
    + simpl. apply list_elem_of_singleton. set_solver.
    + cbn [subsequences]. rewrite fmap_app, elem_of_app.
      destruct (decide (x ∈ X)) as [Hin|Hout].
      * left. assert (HX' : X ∖ {[x]} ⊆ list_to_set l) by set_solver.
        apply IH, list_elem_of_fmap in HX' as (c & Hc & Hcl).
        apply list_elem_of_fmap. exists (x :: c). split; [|by apply list_elem_of_fmap_2].
        simpl. rewrite <- Hc. apply set_eq. intros y.
        destruct (decide (y = x)); set_solver.
      * right. apply IH. set_solver.
Qed.

Lemma length_bind {A B : Type} (f : A → list B) (l : list A) :
  length (l ≫= f) = sum_list_with (λ x, length (f x)) l.
Proof.
  induction l as [|x l IH]; [done|]. rewrite bind_cons, length_app, IH. done.
Qed.

Lemma sum_list_with_fmap {A B : Type} (g : B → nat) (f : A → B) (l : list A) :
  sum_list_with g (f <$> l) = sum_list_with (g ∘ f) l.
Proof. induction l as [|x l IH]; [done|]. csimpl. by rewrite IH. Qed.

Lemma sum_list_with_ext_in {A : Type} (f g : A → nat) (l : list A) :
  (∀ x, x ∈ l → f x = g x) → sum_list_with f l = sum_list_with g l.
Proof.
  induction l as [|x l IH]; intros H; [done|]. simpl.
  rewrite (H x) by left. rewrite IH; [done|]. intros y Hy. apply H. by right.
Qed.

(** Choosing a subsequence and then a subset of what it leaves. *)
Lemma sum_subsequences_pow2 {A : Type} (l : list A) (n : nat) :
  (length l ≤ n)%nat →
  sum_list_with (λ c, 2 ^ (n - length c))%nat (subsequences l)
  = (2 ^ (n - length l) * 3 ^ length l)%nat.
Proof.
  revert n. induction l as [|x l IH]; intros n Hn.
  - simpl. lia.
  - simpl in Hn. destruct n as [|n]; [lia|].
    cbn [subsequences]. rewrite sum_list_with_app, sum_list_with_fmap.
    rewrite (sum_list_with_ext_in _ (λ c, 2 ^ (n - length c))%nat) by done.
    rewrite (IH n), (IH (S n)) by lia.
    cbn [length]. replace (S n - length l)%nat with (S (n - length l)) by lia.
    replace (S n - S (length l))%nat with (n - length l)%nat by lia.
    rewrite !Nat.pow_succ_r'. lia.
Qed.

Section PowersetFacts.

Variable order : gset string → list string.
Hypothesis order_ok : iteration_order order.

Lemma NoDup_order (X : gset string) : NoDup (order X).
Proof. rewrite (order_ok X). apply NoDup_elements. Qed.

Lemma list_to_set_order (X : gset string) : list_to_set (order X) = X.
Proof. rewrite (order_ok X). apply list_to_set_elements_L. Qed.

Lemma elem_of_order (X : gset string) (x : string) : x ∈ order X ↔ x ∈ X.
Proof. rewrite (order_ok X). apply elem_of_elements. Qed.

Lemma length_order (X : gset string) : length (order X) = size X.
Proof. by rewrite (order_ok X). Qed.

Lemma powerset_subsequences (X : gset string) :
  powerset order X ≡ₚ list_to_set <$> subsequences (order X).
Proof.
  unfold powerset. rewrite Nat.add_1_r. by rewrite chain_combinations.
Qed.

Lemma NoDup_powerset (X : gset string) : NoDup (powerset order X).
Proof.
  rewrite powerset_subsequences. apply NoDup_subsequences_sets, NoDup_order.
Qed.

Lemma elem_of_powerset (X Y : gset string) : Y ∈ powerset order X ↔ Y ⊆ X.
Proof.
  rewrite powerset_subsequences, elem_of_subsequences_sets.
  by rewrite list_to_set_order.
Qed.

Lemma length_powerset (X : gset string) :
  length (powerset order X) = (2 ^ size X)%nat.
Proof.
  rewrite powerset_subsequences, length_fmap, length_subsequences.
  by rewrite length_order.
Qed.

Lemma elem_of_gene_pairs (names one_gene two_genes : gset string) :
  (one_gene, two_genes) ∈ gene_pairs order names
  ↔ one_gene ## two_genes ∧ one_gene ∪ two_genes ⊆ names.
Proof.
  unfold gene_pairs. rewrite list_elem_of_bind. split.
  - intros (og & (tg & Heq%list_elem_of_singleton & Htg%elem_of_powerset)%list_elem_of_bind
            & Hog%elem_of_powerset).
    simplify_eq. set_solver.
  - intros [Hdisj Hsub]. exists one_gene. split.
    + apply list_elem_of_bind. exists two_genes. split; [by apply list_elem_of_singleton|].
      apply elem_of_powerset. set_solver.
    + apply elem_of_powerset. set_solver.
Qed.

Lemma NoDup_gene_pairs (names : gset string) : NoDup (gene_pairs order names).
Proof.
  unfold gene_pairs. apply NoDup_bind; [| |apply NoDup_powerset].
  - intros og1 og2 [og tg] _ _
      (tg1 & Heq1%list_elem_of_singleton & _)%list_elem_of_bind
      (tg2 & Heq2%list_elem_of_singleton & _)%list_elem_of_bind.
    congruence.
  - intros og _. apply NoDup_bind; [| |apply NoDup_powerset].
    + intros tg1 tg2 y _ _ Heq1%list_elem_of_singleton Heq2%list_elem_of_singleton.
      congruence.
    + intros tg _. apply NoDup_singleton.
Qed.

Lemma length_gene_pairs (names : gset string) :
  length (gene_pairs order names) = (3 ^ size names)%nat.
Proof.
  unfold gene_pairs. rewrite length_bind.
  rewrite (sum_list_with_ext_in _ (λ og, 2 ^ (size names - size og))%nat).
  2:{ intros og Hog%elem_of_powerset.
      rewrite length_bind, (sum_list_with_ext_in _ (λ _, 1%nat)) by done.
      assert (Hones : ∀ k : list (gset string), sum_list_with (λ _, 1%nat) k = length k).
      { induction k; simpl; lia. }
      rewrite Hones, length_powerset. by rewrite size_difference. }
  rewrite powerset_subsequences, sum_list_with_fmap.
  rewrite (sum_list_with_ext_in _ (λ c, 2 ^ (size names - length c))%nat).
  2:{ intros c Hc%elem_of_subsequences. simpl.
      rewrite size_list_to_set; [done|].
      eapply sublist_NoDup; [apply (NoDup_order names)|done]. }
  rewrite sum_subsequences_pow2 by (by rewrite length_order).
  rewrite length_order, Nat.sub_diag. simpl. lia.
Qed.

End PowersetFacts.

(** Two iteration orders enumerate the same subsets. *)
Lemma powerset_order_irrelevant (order1 order2 : gset string → list string)
    (X : gset string) :
  iteration_order order1 → iteration_order order2 →
  powerset order1 X ≡ₚ powerset order2 X.
Proof.
  intros H1 H2. apply NoDup_Permutation; [by apply NoDup_powerset..|].
  intros Y. by rewrite !elem_of_powerset.
Qed.

Lemma iteration_order_elements : iteration_order default_order.
Proof. intros X. reflexivity. Qed.

(** * Loops *)

Section ForEach.
Context {A St : Type}.
Implicit Types (body : St → A → result St) (l : list A) (acc : St).

Lemma for_each_app body l1 l2 acc :
  for_each body (l1 ++ l2) acc = (acc' ← for_each body l1 acc; for_each body l2 acc').
Proof.
  revert acc. induction l1 as [|x l1 IH]; intros acc; [done|].
  simpl. destruct (body acc x) as [acc'|e]; simpl; [apply IH | done].
Qed.

Lemma for_each_ext body1 body2 l acc :
  (∀ acc x, x ∈ l → body1 acc x = body2 acc x) →
  for_each body1 l acc = for_each body2 l acc.
Proof.
  revert acc. induction l as [|x l IH]; intros acc H; [done|].
  simpl. rewrite H by left. destruct (body2 acc x); simpl; [|done].
  apply IH. intros acc' y Hy. apply H. by right.
Qed.

(** A loop whose body never raises is a left fold. *)
Lemma for_each_pure (f : St → A → St) l acc :
  for_each (λ acc x, Ok (f acc x)) l acc = Ok (foldl f acc l).
Proof. revert acc. induction l as [|x l IH]; intros acc; [done|]. apply IH. Qed.

(** A loop raises what its first raising round raises, provided the rounds
    before it leave without raising. *)
Lemma for_each_raise body l acc (e : exn) :
  (∀ acc x, x ∈ l → (∃ acc', body acc x = Ok acc') ∨ body acc x = Raise e) →
  (∃ x, x ∈ l ∧ ∀ acc, body acc x = Raise e) →
  for_each body l acc = Raise e.
Proof.
  revert acc. induction l as [|x l IH]; intros acc Hall (y & Hy & Hraise).
  - by apply elem_of_nil in Hy.
  - simpl. destruct (Hall acc x) as [[acc' Hb] | Hb]; [by left| |by rewrite Hb].
    rewrite Hb. simpl. apply elem_of_cons in Hy as [->|Hy].
    + by rewrite Hraise in Hb.
    + apply IH; [|by eauto]. intros acc0 z Hz. apply Hall. by right.
Qed.

End ForEach.

(** Two nested loops are one loop over the pairs they meet. *)
Lemma for_each_nested {A B St : Type} (body : St → A * B → result St)
    (f : A → list B) (l : list A) (acc : St) :
  for_each (λ acc x, for_each (λ acc y, body acc (x, y)) (f x) acc) l acc
  = for_each body (x ← l; y ← f x; [(x, y)]) acc.
Proof.
  revert acc. induction l as [|x l IH]; intros acc; [done|].
  rewrite bind_cons, for_each_app. cbn [for_each].
  assert (Hin : ∀ k acc, for_each (λ acc y, body acc (x, y)) k acc
                         = for_each body (y ← k; [(x, y)]) acc).
  { induction k as [|y k IHk]; intros acc0; [done|].
    simpl. destruct (body acc0 (x, y)); simpl; [apply IHk | done]. }
  rewrite Hin. destruct (for_each body _ acc); simpl; [apply IH | done].
Qed.

Lemma gene_loops_pairs (order : gset string → list string) (people : dict person)
    (names have_trait : gset string) (probabilities : dict distribution) :
  gene_loops order people names have_trait probabilities
  = for_each (gene_step people have_trait) (gene_pairs order names) probabilities.
Proof.
  unfold gene_loops, gene_pairs.
  by rewrite <- (for_each_nested (gene_step people have_trait)).
Qed.

(** [C6] The two loops over the gene sets meet every ordered pair of
    disjoint subsets of the names exactly once: the pairs they meet are
    free of duplicates and are the disjoint pairs inside the names, the
    trait subsets are the 2^N subsets, and the pairs number 3^N. *)
Theorem enumeration_covers_partitions (order : gset string → list string)
    (names : gset string) :
  iteration_order order →
  (∀ people have_trait probabilities,
      gene_loops order people names have_trait probabilities
      = for_each (gene_step people have_trait) (gene_pairs order names) probabilities)
  ∧ NoDup (gene_pairs order names)
  ∧ (∀ one_gene two_genes,
        (one_gene, two_genes) ∈ gene_pairs order names
        ↔ one_gene ## two_genes ∧ one_gene ∪ two_genes ⊆ names)
  ∧ NoDup (powerset order names)
  ∧ (∀ have_trait, have_trait ∈ powerset order names ↔ have_trait ⊆ names)
  ∧ length (powerset order names) = (2 ^ size names)%nat
  ∧ length (gene_pairs order names) = (3 ^ size names)%nat.
Proof.
  intros Horder. split_and!.
  - intros. apply gene_loops_pairs.
  - by apply NoDup_gene_pairs.
  - intros. by apply elem_of_gene_pairs.
  - by apply NoDup_powerset.
  - intros. by apply elem_of_powerset.
  - by apply length_powerset.
  - by apply length_gene_pairs.
Qed.

Lemma enumeration_covers_partitions_witness :
  iteration_order default_order
  ∧ NoDup (gene_pairs default_order {["Harry"; "James"; "Lily"]}%string)
  ∧ length (gene_pairs default_order {["Harry"; "James"; "Lily"]}%string) = 27%nat.
Proof.
  split; [exact iteration_order_elements|].
  pose proof (enumeration_covers_partitions default_order
                {["Harry"; "James"; "Lily"]}%string iteration_order_elements)
    as (_ & Hnodup & _ & _ & _ & _ & Hlen).
  split; [exact Hnodup|]. rewrite Hlen. reflexivity.
Defined.

(** * joint_probability *)

Lemma dict_get_keys {V : Type} (d : dict V) (k : string) :
  k ∈ keys d ↔ is_Some (dict_get d k).
Proof.
  unfold keys. induction d as [|[k' v] d IH]; simpl.
  - split; [by intros ?%elem_of_nil | by intros [? ?]].
  - rewrite elem_of_cons. destruct (decide (k' = k)) as [->|Hne]; [split; eauto|].
    rewrite <- IH. naive_solver.
Qed.

Lemma genes_of_cases (one_gene two_genes : gset string) (person : string) :
  genes_of one_gene two_genes person = 0%nat
  ∨ genes_of one_gene two_genes person = 1%nat
  ∨ genes_of one_gene two_genes person = 2%nat.
Proof. unfold genes_of. repeat case_decide; auto. Qed.

Lemma make_ref_lookup (people : dict person)
    (one_gene two_genes have_trait : gset string) (k : string) :
  make_ref people one_gene two_genes have_trait !! k
  = if decide (k ∈ keys people)
    then Some (genes_of one_gene two_genes k, trait_of have_trait k)
    else None.
Proof.
  unfold make_ref.
  set (f := λ (ref : gmap string (nat * bool)) person, _).
  assert (H : ∀ (l : list string) (m : gmap string (nat * bool)),
             foldl f m l !! k
             = if decide (k ∈ l)
               then Some (genes_of one_gene two_genes k, trait_of have_trait k)
               else m !! k).
  { induction l as [|x l IH]; intros m; cbn [foldl].
    - rewrite decide_False by apply not_elem_of_nil. done.
    - rewrite IH. subst f. cbn beta.
      destruct (decide (k ∈ l)) as [Hl|Hl].
      + rewrite decide_True by (by right). done.
      + destruct (decide (x = k)) as [->|Hne].
        * rewrite decide_True by left. by rewrite lookup_insert_eq.
        * rewrite lookup_insert_ne by done.
          rewrite decide_False; [done|]. rewrite elem_of_cons. naive_solver. }
  rewrite H. by case_decide.
Qed.

Lemma PROBS_gene_total (one_gene two_genes : gset string) (person : string) :
  ∃ v, PROBS_gene (genes_of one_gene two_genes person) = Some v ∧ 0 < v.
Proof.
  destruct (genes_of_cases one_gene two_genes person) as [-> | [-> | ->]];
    eexists; (split; [reflexivity | reflexivity]).
Qed.

Lemma PROBS_trait_total (one_gene two_genes : gset string) (person : string)
    (t : bool) :
  ∃ v, PROBS_trait (genes_of one_gene two_genes person) t = Some v ∧ 0 < v.
Proof.
  destruct (genes_of_cases one_gene two_genes person) as [-> | [-> | ->]];
    destruct t; eexists; (split; [reflexivity | reflexivity]).
Qed.

Lemma getitem_genes_total (one_gene two_genes : gset string) (k f m : string) :
  ∃ v, getitem create_gene_matrix (genes_of one_gene two_genes k)
         (genes_of one_gene two_genes f) (genes_of one_gene two_genes m) = Some v
       ∧ 0 < v.
Proof.
  destruct (genes_of_cases one_gene two_genes k) as [-> | [-> | ->]];
    destruct (genes_of_cases one_gene two_genes f) as [-> | [-> | ->]];
    destruct (genes_of_cases one_gene two_genes m) as [-> | [-> | ->]];
    eexists; (split; [vm_compute; reflexivity | reflexivity]).
Qed.

Section JointProbability.

#[local] Opaque create_gene_matrix.

Variable people : dict person.
Variables one_gene two_genes have_trait : gset string.

Let ref := make_ref people one_gene two_genes have_trait.

Lemma person_factor_known (joint_prob : list Q) (person : string) :
  person_known people person = true →
  person_factor people ref create_gene_matrix joint_prob person
  = Ok (joint_prob ++ [person_value people one_gene two_genes have_trait person])
    ∧ 0 < person_value people one_gene two_genes have_trait person.
Proof.
  unfold person_known, person_factor, person_value, ref.
  destruct (dict_get people person) as [p|] eqn:Hp; [|done]. simpl.
  assert (Hkey : person ∈ keys people) by (apply dict_get_keys; eauto).
  destruct (PROBS_trait_total one_gene two_genes person (trait_of have_trait person))
    as (tv & Htv & Htpos).
  destruct (mother p) as [m|].
  - intros [Hm Hf]%andb_true_iff. destruct (father p) as [f|]; [|done].
    apply bool_decide_eq_true in Hm, Hf.
    rewrite !make_ref_lookup, !decide_True by done. simpl.
    rewrite !make_ref_lookup, !decide_True by done. simpl.
    destruct (getitem_genes_total one_gene two_genes person f m) as (gv & Hgv & Hgpos).
    unfold entry. rewrite Hgv, Htv. simpl. split; [done|]. by apply Qmult_lt_0_compat.
  - intros _. rewrite make_ref_lookup, decide_True by done. simpl.
    destruct (PROBS_gene_total one_gene two_genes person) as (gv & Hgv & Hgpos).
    rewrite Hgv, Htv. simpl. split; [done|]. by apply Qmult_lt_0_compat.
Qed.

Lemma person_factor_unknown (joint_prob : list Q) (person : string) :
  person_known people person = false →
  person_factor people ref create_gene_matrix joint_prob person = Raise KeyError.
Proof.
  unfold person_known, person_factor, ref.
  destruct (dict_get people person) as [p|] eqn:Hp; [|done]. simpl.
  assert (Hkey : person ∈ keys people) by (apply dict_get_keys; eauto).
  destruct (mother p) as [m|]; [|done]. intros Hunknown.
  rewrite (make_ref_lookup people one_gene two_genes have_trait person).
  rewrite (decide_True _ _ Hkey). simpl.
  destruct (father p) as [f|]; simpl; [|done].
  rewrite (make_ref_lookup people one_gene two_genes have_trait f).
  destruct (decide (f ∈ keys people)) as [Hf|Hf]; simpl; [|done].
  rewrite (make_ref_lookup people one_gene two_genes have_trait m).
  destruct (decide (m ∈ keys people)) as [Hm|Hm]; simpl; [|done].
  by rewrite !bool_decide_eq_true_2 in Hunknown.
Qed.

Lemma for_each_person_factor (l : list string) (joint_prob : list Q) :
  forallb (person_known people) l = true →
  for_each (person_factor people ref create_gene_matrix) l joint_prob
  = Ok (joint_prob ++ (person_value people one_gene two_genes have_trait <$> l)).
Proof.
  revert joint_prob. induction l as [|x l IH]; intros joint_prob; simpl.
  - intros _. by rewrite app_nil_r.
  - intros [Hx Hl]%andb_true_iff.
    destruct (person_factor_known joint_prob x Hx) as [-> _]. simpl.
    rewrite IH by done. by rewrite <- app_assoc.
Qed.

Lemma for_each_person_factor_raise (l : list string) (joint_prob : list Q) :
  forallb (person_known people) l = false →
  for_each (person_factor people ref create_gene_matrix) l joint_prob
  = Raise KeyError.
Proof.
  revert joint_prob. induction l as [|x l IH]; intros joint_prob; simpl; [done|].
  destruct (person_known people x) eqn:Hx; simpl.
  - intros Hl. destruct (person_factor_known joint_prob x Hx) as [-> _]. simpl.
    by apply IH.
  - intros _. by rewrite person_factor_unknown.
Qed.

Lemma joint_probability_known :
  parents_known people = true →
  joint_probability people one_gene two_genes have_trait
  = Ok (joint_value people one_gene two_genes have_trait).
Proof.
  intros H. unfold joint_probability, joint_value. fold ref.
  by rewrite for_each_person_factor.
Qed.

Lemma joint_probability_unknown :
  parents_known people = false →
  joint_probability people one_gene two_genes have_trait = Raise KeyError.
Proof.
  intros H. unfold joint_probability. fold ref.
  by rewrite for_each_person_factor_raise.
Qed.

End JointProbability.

#[local] Transparent create_gene_matrix.

Lemma dict_get_elem {V : Type} (d : dict V) (k : string) (v : V) :
  NoDup (keys d) → (k, v) ∈ d → dict_get d k = Some v.
Proof.
  unfold keys. induction d as [|[k' v'] d IH]; simpl; intros Hnd Hin.
  - by apply elem_of_nil in Hin.
  - apply NoDup_cons in Hnd as [Hk' Hnd].
    apply elem_of_cons in Hin as [Heq|Hin].
    + simplify_eq. by rewrite decide_True.
    + rewrite decide_False; [by apply IH|].
      intros ->. apply Hk'. apply list_elem_of_fmap. by exists (k, v).
Qed.

Lemma foldl_Qmult (l : list Q) (a : Q) : foldl Qmult a l == a * product l.
Proof.
  revert a. induction l as [|x l IH]; intros a; simpl.
  - ring.
  - rewrite IH. unfold product. simpl. ring.
Qed.

Lemma foldl_Qmult_pos (l : list Q) (a : Q) :
  0 < a → Forall (λ x, 0 < x) l → 0 < foldl Qmult a l.
Proof.
  intros Ha Hl. revert a Ha. induction Hl as [|x l Hx Hl IH]; intros a Ha; [done|].
  simpl. apply IH. by apply Qmult_lt_0_compat.
Qed.

Lemma joint_value_pos (people : dict person)
    (one_gene two_genes have_trait : gset string) :
  parents_known people = true →
  0 < joint_value people one_gene two_genes have_trait.
Proof.
  intros H. unfold joint_value. apply foldl_Qmult_pos; [reflexivity|].
  apply Forall_fmap, Forall_forall. intros k Hk. simpl.
  unfold parents_known in H. rewrite forallb_forall in H.
  apply (person_factor_known people one_gene two_genes have_trait []).
  apply H. by apply list_elem_of_In.
Qed.

Lemma well_formed_parents_known (people : dict person) :
  well_formed people → parents_known people = true.
Proof.
  intros [Hnd Hwf]. unfold parents_known. apply forallb_forall.
  intros k (p & Hk)%list_elem_of_In%dict_get_keys. unfold person_known. rewrite Hk.
  assert (Hin : (k, p) ∈ people).
  { clear -Hk. induction people as [|[k' v'] d IH]; simpl in Hk; [done|].
    case_decide; simplify_eq; [left | right; by apply IH]. }
  destruct (Hwf k p Hin) as (Hboth & Hm & Hf).
  destruct (mother p) as [m|] eqn:Em; [|done].
  destruct (father p) as [f|] eqn:Ef.
  - rewrite !bool_decide_eq_true_2; [done|by apply Hf|by apply Hm].
  - by destruct Hboth as [_ Hb]; specialize (Hb eq_refl).
Qed.

(** [C4] On a well-formed person table [joint_probability] returns the
    product, over all persons, of the gene factor (the unconditional lookup
    without recorded parents, the transition entry at the gene counts of the
    person, the father and the mother otherwise) and the trait factor. *)
Theorem joint_probability_is_product (people : dict person)
    (one_gene two_genes have_trait : gset string) :
  well_formed people →
  ∃ v, joint_probability people one_gene two_genes have_trait = Ok v
       ∧ v == product ((λ '(k, p), gene_factor one_gene two_genes k p
                                   * trait_factor one_gene two_genes have_trait k)
                       <$> people).
Proof.
  intros Hwf. exists (joint_value people one_gene two_genes have_trait).
  split; [by apply joint_probability_known, well_formed_parents_known|].
  unfold joint_value. rewrite foldl_Qmult, Qmult_1_l.
  destruct Hwf as [Hnd Hwf].
  assert (Heq : person_value people one_gene two_genes have_trait <$> keys people
                = (λ '(k, p), gene_factor one_gene two_genes k p
                              * trait_factor one_gene two_genes have_trait k)
                  <$> people).
  { unfold keys. rewrite <- list_fmap_compose. apply list_fmap_ext.
    intros i [k p] Hi%list_elem_of_lookup_2. simpl.
    unfold person_value, gene_factor, trait_factor.
    rewrite (dict_get_elem people k p Hnd Hi).
    destruct (Hwf k p Hi) as (Hboth & _ & _).
    destruct (mother p) as [m|], (father p) as [f|]; try done.
    - by destruct Hboth as [_ Hb]; specialize (Hb eq_refl).
    - by destruct Hboth as [Hb _]; specialize (Hb eq_refl). }
  by rewrite Heq.
Qed.

Lemma well_formed_family0 : well_formed family0.
Proof.
  split; [vm_compute; by repeat constructor; set_solver|].
  intros k p Hin. unfold family0 in Hin.
  repeat (apply elem_of_cons in Hin as [Hin|Hin]; [simplify_eq; simpl|]);
    try (by apply elem_of_nil in Hin);
    (split_and!; [done | intros ? ?; simplify_eq; set_solver ..]).
Qed.

Lemma joint_probability_is_product_witness :
  well_formed family0
  ∧ ∃ v, joint_probability family0 {["Harry"]}%string {["James"]}%string
           {["James"]}%string = Ok v
         ∧ v == product ((λ '(k, p),
                            gene_factor {["Harry"]}%string {["James"]}%string k p
                            * trait_factor {["Harry"]}%string {["James"]}%string
                                {["James"]}%string k)
                         <$> family0).
Proof.
  split; [exact well_formed_family0|].
  exact (joint_probability_is_product family0 {["Harry"]}%string {["James"]}%string
           {["James"]}%string well_formed_family0).
Defined.

(** * update *)

Lemma update_person_buckets (one_gene two_genes have_trait : gset string)
    (p : Q) (person : string) (d : distribution) :
  (∀ n, (n < 3)%nat →
     gene_bucket (update_person one_gene two_genes have_trait p person d) n
     = if decide (n = genes_of one_gene two_genes person)
       then gene_bucket d n + p else gene_bucket d n)
  ∧ (∀ t,
     trait_bucket (update_person one_gene two_genes have_trait p person d) t
     = if decide (t = trait_of have_trait person)
       then trait_bucket d t + p else trait_bucket d t).
Proof.
  unfold update_person, genes_of, trait_of. split.
  - intros n Hn. destruct n as [|[|[|n]]]; [ | | | lia];
      repeat case_decide; try done; try lia.
  - intros t. destruct t; repeat case_decide; done.
Qed.


Lemma update_keys (probabilities : dict distribution)
    (one_gene two_genes have_trait : gset string) (p : Q) :
  keys (update probabilities one_gene two_genes have_trait p) = keys probabilities.
Proof.
  unfold update, keys. rewrite <- list_fmap_compose.
  apply list_fmap_ext. by intros i [k d] _.
Qed.

Lemma update_lookup (probabilities : dict distribution)
    (one_gene two_genes have_trait : gset string) (p : Q) (i : nat) :
  update probabilities one_gene two_genes have_trait p !! i
  = (λ '(k, d), (k, update_person one_gene two_genes have_trait p k d))
    <$> probabilities !! i.
Proof. unfold update. apply list_lookup_fmap. Qed.

Lemma foldl_update_call (probabilities : dict distribution) (calls : list call) :
  foldl update_call probabilities calls
  = (λ '(k, d), (k, person_after k d calls)) <$> probabilities.
Proof.
  revert probabilities. induction calls as [|c calls IH]; intros probabilities.
  - simpl. rewrite <- (list_fmap_id probabilities) at 1.
    apply list_fmap_ext. by intros i [k d] _.
  - simpl. rewrite IH. unfold update_call, update.
    rewrite <- list_fmap_compose. apply list_fmap_ext. by intros i [k d] _.
Qed.


(** ** update in binary64 *)

Lemma float64_update_person_buckets (one_gene two_genes have_trait : gset string)
    (p : float) (person : string) (d : Float64.distribution) :
  (∀ n, (n < 3)%nat →
     Float64.gene_bucket
       (Float64.update_person one_gene two_genes have_trait p person d) n
     = if decide (n = genes_of one_gene two_genes person)
       then PrimFloat.add (Float64.gene_bucket d n) p else Float64.gene_bucket d n)
  ∧ (∀ t,
     Float64.trait_bucket
       (Float64.update_person one_gene two_genes have_trait p person d) t
     = if decide (t = trait_of have_trait person)
       then PrimFloat.add (Float64.trait_bucket d t) p
       else Float64.trait_bucket d t).
Proof.
  unfold Float64.update_person, genes_of, trait_of. split.
  - intros n Hn. destruct n as [|[|[|n]]]; [ | | | lia];
      repeat case_decide; try done; try lia.
  - intros t. destruct t; repeat case_decide; done.
Qed.

Lemma float64_foldl_update_call (probabilities : dict Float64.distribution)
    (calls : list Float64.call) :
  foldl Float64.update_call probabilities calls
  = (λ '(k, d), (k, Float64.person_after k d calls)) <$> probabilities.
Proof.
  revert probabilities. induction calls as [|c calls IH]; intros probabilities.
  - simpl. rewrite <- (list_fmap_id probabilities) at 1.
    apply list_fmap_ext. by intros i [k d] _.
  - simpl. rewrite IH. unfold Float64.update_call, Float64.update.
    rewrite <- list_fmap_compose. apply list_fmap_ext. by intros i [k d] _.
Qed.

(** A bucket is the sum, from the left, of what the calls that select it add. *)
Lemma float64_person_after_buckets (k : string) (calls : list Float64.call)
    (d0 : Float64.distribution) :
  (∀ n, (n < 3)%nat →
     Float64.gene_bucket (Float64.person_after k d0 calls) n
     = foldl PrimFloat.add (Float64.gene_bucket d0 n)
             (Float64.selected (Float64.has_genes k n) calls))
  ∧ (∀ b,
     Float64.trait_bucket (Float64.person_after k d0 calls) b
     = foldl PrimFloat.add (Float64.trait_bucket d0 b)
             (Float64.selected (Float64.has_trait k b) calls)).
Proof.
  unfold Float64.person_after, Float64.selected.
  revert d0. induction calls as [|c calls IH]; intros d0; [done|].
  cbn [foldl List.filter].
  destruct (IH (Float64.update_person (Float64.call_one_gene c)
                  (Float64.call_two_genes c) (Float64.call_have_trait c)
                  (Float64.call_p c) k d0)) as [IHg IHt].
  destruct (float64_update_person_buckets (Float64.call_one_gene c)
              (Float64.call_two_genes c) (Float64.call_have_trait c)
              (Float64.call_p c) k d0) as [Hg Ht].
  split.
  - intros n Hn. rewrite (IHg n Hn), (Hg n Hn).
    unfold Float64.has_genes at 2. case_decide as Hc.
    + by rewrite bool_decide_eq_true_2 by done.
    + by rewrite bool_decide_eq_false_2 by done.
  - intros b. rewrite (IHt b), (Ht b).
    unfold Float64.has_trait at 2. case_decide as Hc.
    + by rewrite bool_decide_eq_true_2 by done.
    + by rewrite bool_decide_eq_false_2 by done.
Qed.

(** * The loops of main *)

Lemma foldl_bind {A B C : Type} (f : A → C → A) (g : B → list C) (l : list B) (a : A) :
  foldl f a (l ≫= g) = foldl (λ a x, foldl f a (g x)) a l.
Proof.
  revert a. induction l as [|x l IH]; intros a; [done|].
  rewrite bind_cons, foldl_app. apply IH.
Qed.

Lemma any_pure {A : Type} (f : A → bool) (g : A → result bool) (l : list A) :
  (∀ x, x ∈ l → g x = Ok (f x)) → any g l = Ok (existsb f l).
Proof.
  induction l as [|x l IH]; intros H; [done|].
  simpl. rewrite H by left. simpl. destruct (f x); [done|].
  apply IH. intros y Hy. apply H. by right.
Qed.

Section Accumulate.

Variable order : gset string → list string.
Hypothesis order_ok : iteration_order order.
Variable people : dict person.

Let names := names_of people.

Lemma elem_of_names (k : string) : k ∈ names ↔ k ∈ keys people.
Proof. unfold names, names_of. apply elem_of_list_to_set. Qed.

Lemma fails_evidence_rejected (have_trait : gset string) :
  fails_evidence order people names have_trait
  = Ok (rejected order people names have_trait).
Proof.
  unfold fails_evidence, rejected. apply any_pure.
  intros k Hk%(elem_of_order order order_ok)%elem_of_names%dict_get_keys.
  destruct Hk as [p Hp]. unfold mismatch, evidence. by rewrite Hp.
Qed.

Lemma rejected_true (have_trait : gset string) :
  rejected order people names have_trait = true
  ↔ ∃ k, k ∈ keys people ∧ mismatch people have_trait k = true.
Proof.
  unfold rejected. rewrite existsb_exists. split.
  - intros (k & Hk%list_elem_of_In%(elem_of_order order order_ok)%elem_of_names & Hm).
    eauto.
  - intros (k & Hk & Hm). exists k. split; [|done].
    by apply list_elem_of_In, (elem_of_order order order_ok), elem_of_names.
Qed.

Lemma gene_step_known (have_trait : gset string)
    (probabilities : dict distribution) (pair : gset string * gset string) :
  parents_known people = true →
  gene_step people have_trait probabilities pair
  = Ok (update_call probabilities
          (Call pair.1 pair.2 have_trait
                (joint_value people pair.1 pair.2 have_trait))).
Proof. intros H. unfold gene_step. by rewrite joint_probability_known. Qed.

Lemma gene_loops_known (have_trait : gset string)
    (probabilities : dict distribution) :
  parents_known people = true →
  gene_loops order people names have_trait probabilities
  = Ok (foldl update_call probabilities (calls_for order people names have_trait)).
Proof.
  intros H. rewrite gene_loops_pairs. unfold calls_for. rewrite foldl_fmap.
  rewrite <- for_each_pure. apply for_each_ext.
  intros acc pair _. by apply gene_step_known.
Qed.


Lemma trait_round_known (probabilities : dict distribution)
    (have_trait : gset string) :
  parents_known people = true →
  trait_round order people names probabilities have_trait
  = Ok (foldl update_call probabilities
          (if rejected order people names have_trait then []
           else calls_for order people names have_trait)).
Proof.
  intros H. unfold trait_round. rewrite fails_evidence_rejected. simpl.
  destruct (rejected order people names have_trait); [done|].
  by apply gene_loops_known.
Qed.

Lemma accumulate_known :
  parents_known people = true →
  accumulate order people
  = Ok (foldl update_call (zero_table (keys people)) (calls order people)).
Proof.
  intros H. unfold accumulate, calls. fold (names_of people). fold names.
  rewrite foldl_bind, <- for_each_pure. apply for_each_ext.
  intros acc have_trait _. by apply trait_round_known.
Qed.

(** The set of persons known to have the trait passes the filter. *)
Lemma known_true_accepted :
  known_true people ⊆ names
  ∧ rejected order people names (known_true people) = false.
Proof.
  split.
  - intros k. unfold known_true. rewrite elem_of_list_to_set, list_elem_of_filter.
    intros [_ Hk]. by apply elem_of_names.
  - apply not_true_is_false. intros (k & Hk & Hm)%rejected_true.
    unfold mismatch in Hm. destruct (evidence people k) as [t|] eqn:Ht; [|done].
    apply negb_true_iff, eqb_false_iff in Hm. apply Hm. clear Hm.
    unfold known_true. destruct t.
    + symmetry. apply bool_decide_eq_true.
      rewrite elem_of_list_to_set, list_elem_of_filter. done.
    + symmetry. apply bool_decide_eq_false.
      rewrite elem_of_list_to_set, list_elem_of_filter. intros [Hk' _]. congruence.
Qed.


End Accumulate.

(** * normalize *)

Lemma normalize_person_ok (d : distribution) :
  normalizable d = true → normalize_person d = Ok (normalized d).
Proof.
  unfold normalizable, normalize_person, normalized, reciprocal.
  intros [Hg Ht]%andb_true_iff.
  apply negb_true_iff in Hg, Ht. by rewrite Hg, Ht.
Qed.

Lemma normalize_person_raise (d : distribution) :
  normalizable d = false → normalize_person d = Raise ZeroDivisionError.
Proof.
  unfold normalizable, normalize_person, reciprocal.
  destruct (Qeq_bool (gene_total d) 0); [done|].
  destruct (Qeq_bool (trait_total d) 0); done.
Qed.

Lemma normalizable_false (d : distribution) :
  normalizable d = false ↔ gene_total d == 0 ∨ trait_total d == 0.
Proof.
  unfold normalizable. rewrite andb_false_iff, !negb_false_iff, !Qeq_bool_iff. done.
Qed.

Lemma normalizable_true (d : distribution) :
  normalizable d = true ↔ ¬ gene_total d == 0 ∧ ¬ trait_total d == 0.
Proof.
  unfold normalizable. rewrite andb_true_iff, !negb_true_iff.
  rewrite <- !not_true_iff_false, !Qeq_bool_iff. done.
Qed.

Lemma normalize_loop_ok (l done : dict distribution) :
  Forall (λ kd, normalizable kd.2 = true) l →
  for_each (λ done '(person, d),
              d' ← normalize_person d; Ok (done ++ [(person, d')])) l done
  = Ok (done ++ ((λ '(k, d), (k, normalized d)) <$> l)).
Proof.
  intros Hl. revert done. induction Hl as [|[k d] l Hd Hl IH]; intros done.
  - simpl. by rewrite app_nil_r.
  - cbn [for_each]. simpl in Hd. rewrite (normalize_person_ok d Hd). simpl.
    rewrite IH. by rewrite <- app_assoc.
Qed.

Lemma normalize_ok (probabilities : dict distribution) :
  Forall (λ kd, normalizable kd.2 = true) probabilities →
  normalize probabilities = Ok ((λ '(k, d), (k, normalized d)) <$> probabilities).
Proof. intros H. unfold normalize. by rewrite normalize_loop_ok. Qed.

Lemma normalize_raise (probabilities : dict distribution) :
  Exists (λ kd, normalizable kd.2 = false) probabilities →
  normalize probabilities = Raise ZeroDivisionError.
Proof.
  intros ([k d] & Hin & Hd)%Exists_exists. unfold normalize.
  apply for_each_raise.
  - intros done [k' d'] _. destruct (normalizable d') eqn:E.
    + left. rewrite (normalize_person_ok d' E). simpl. eauto.
    + right. by rewrite (normalize_person_raise d' E).
  - exists (k, d). split; [done|]. intros done. simpl in Hd.
    by rewrite (normalize_person_raise d Hd).
Qed.

(** [X1] [normalize] raises ZeroDivisionError exactly when some person's gene
    weights or trait weights add up to zero, and returns otherwise. *)
Theorem normalize_raises_iff (probabilities : dict distribution) :
  (normalize probabilities = Raise ZeroDivisionError
   ↔ ∃ k d, (k, d) ∈ probabilities ∧ (gene_total d == 0 ∨ trait_total d == 0))
  ∧ (normalize probabilities = Raise ZeroDivisionError
     ∨ ∃ t, normalize probabilities = Ok t).
Proof.
  destruct (decide (Forall (λ kd : string * distribution, normalizable kd.2 = true)
                      probabilities)) as [Hall|Hex].
  - rewrite (normalize_ok _ Hall). split; [|by eauto]. split; [done|].
    intros (k & d & Hin & Hz%normalizable_false).
    rewrite Forall_forall in Hall. specialize (Hall _ Hin). simpl in Hall. congruence.
  - apply not_Forall_Exists in Hex; [|apply _].
    assert (Hex' : Exists (λ kd : string * distribution, normalizable kd.2 = false)
                     probabilities).
    { eapply Exists_impl; [exact Hex|]. intros kd H. by apply not_true_is_false. }
    rewrite (normalize_raise _ Hex'). split; [|by left]. split; [|done]. intros _.
    apply Exists_exists in Hex' as ([k d] & Hin & Hd). exists k, d.
    split; [done|]. by apply normalizable_false.
Qed.

Lemma normalized_totals (d : distribution) :
  normalizable d = true →
  gene_total (normalized d) == 1 ∧ trait_total (normalized d) == 1.
Proof.
  intros [Hg Ht]%normalizable_true. unfold normalized.
  unfold gene_total, trait_total in *. simpl.
  split; field; intros H; [apply Hg | apply Ht]; lra.
Qed.



(** * The whole of main *)

Lemma bind_permutation_ext {A B : Type} (f g : A → list B) (l1 l2 : list A) :
  l1 ≡ₚ l2 → (∀ x, f x ≡ₚ g x) → l1 ≫= f ≡ₚ l2 ≫= g.
Proof.
  intros Hl Hfg. rewrite Hl. clear Hl l1.
  induction l2 as [|x l IH]; [done|]. rewrite !bind_cons. by f_equiv.
Qed.

Section TwoOrders.

Variables order1 order2 : gset string → list string.
Hypothesis order1_ok : iteration_order order1.
Hypothesis order2_ok : iteration_order order2.
Variable people : dict person.

Lemma gene_pairs_order_irrelevant (names : gset string) :
  gene_pairs order1 names ≡ₚ gene_pairs order2 names.
Proof.
  apply NoDup_Permutation; [by apply NoDup_gene_pairs..|].
  intros [og tg]. by rewrite !elem_of_gene_pairs.
Qed.

Lemma rejected_order_irrelevant (have_trait : gset string) :
  rejected order1 people (names_of people) have_trait
  = rejected order2 people (names_of people) have_trait.
Proof.
  pose proof (rejected_true order1 order1_ok people have_trait) as H1.
  pose proof (rejected_true order2 order2_ok people have_trait) as H2.
  destruct (rejected order1 _ _ _), (rejected order2 _ _ _); try done.
  - symmetry. apply H2, H1. done.
  - apply H1, H2. done.
Qed.

Lemma calls_order_irrelevant : calls order1 people ≡ₚ calls order2 people.
Proof.
  unfold calls. apply bind_permutation_ext.
  - by apply powerset_order_irrelevant.
  - intros have_trait. rewrite rejected_order_irrelevant.
    destruct (rejected order2 _ _ _); [done|].
    unfold calls_for. by rewrite gene_pairs_order_irrelevant.
Qed.

End TwoOrders.

Lemma forallb_false {A : Type} (f : A → bool) (l : list A) :
  forallb f l = false ↔ ∃ x, x ∈ l ∧ f x = false.
Proof.
  induction l as [|x l IH]; simpl.
  - split; [done|]. by intros (x & Hx%elem_of_nil & _).
  - rewrite andb_false_iff, IH. split.
    + intros [Hx|(y & Hy & Hfy)]; [exists x | exists y]; split; try done;
        [left | by right].
    + intros (y & [->|Hy]%elem_of_cons & Hfy); [by left | right; eauto].
Qed.

Lemma parents_known_false (people : dict person) :
  parents_known people = false ↔ missing_parent people.
Proof.
  unfold parents_known, missing_parent. rewrite forallb_false. split.
  - intros (k & Hin & Hk).
    apply dict_get_keys in Hin as [p Hp]. unfold person_known in Hk. rewrite Hp in Hk.
    destruct (mother p) as [m|] eqn:Em; [|done]. exists k, p, m. split_and!; [done..|].
    apply andb_false_iff in Hk as [Hm|Hf].
    + left. by apply bool_decide_eq_false in Hm.
    + right. intros f Ef. rewrite Ef in Hf. by apply bool_decide_eq_false in Hf.
  - intros (k & p & m & Hp & Em & Hmiss). exists k.
    split; [apply dict_get_keys; eauto|].
    unfold person_known. rewrite Hp, Em. apply andb_false_iff.
    destruct Hmiss as [Hmiss|Hmiss]; [left; by apply bool_decide_eq_false|].
    right. destruct (father p) as [f|]; [|done].
    apply bool_decide_eq_false. by apply Hmiss.
Qed.

Lemma parents_known_true (people : dict person) :
  parents_known people = true ↔ ¬ missing_parent people.
Proof.
  rewrite <- parents_known_false. by destruct (parents_known people).
Qed.

Section Main.

Variable order : gset string → list string.
Hypothesis order_ok : iteration_order order.
Variable people : dict person.

Lemma elem_of_calls (c : call) :
  c ∈ calls order people
  ↔ call_have_trait c ⊆ names_of people
    ∧ rejected order people (names_of people) (call_have_trait c) = false
    ∧ call_one_gene c ## call_two_genes c
    ∧ call_one_gene c ∪ call_two_genes c ⊆ names_of people
    ∧ call_p c = joint_value people (call_one_gene c) (call_two_genes c)
                   (call_have_trait c).
Proof.
  unfold calls. rewrite list_elem_of_bind. split.
  - intros (ht & Hc & Hht%(elem_of_powerset order order_ok)).
    destruct (rejected order people (names_of people) ht) eqn:E;
      [by apply elem_of_nil in Hc|].
    unfold calls_for in Hc. apply list_elem_of_fmap in Hc as ([og tg] & -> & Hp).
    apply (elem_of_gene_pairs order order_ok) in Hp as [? ?]. simpl. done.
  - intros (Hht & Hrej & Hdisj & Hsub & Hp). exists (call_have_trait c).
    split; [|by apply (elem_of_powerset order order_ok)].
    rewrite Hrej. unfold calls_for. apply list_elem_of_fmap.
    exists (call_one_gene c, call_two_genes c). simpl.
    split; [destruct c; simpl in *; by subst|].
    by apply (elem_of_gene_pairs order order_ok).
Qed.

Lemma NoDup_calls : NoDup (calls order people).
Proof.
  unfold calls. apply NoDup_bind; [| |by apply NoDup_powerset].
  - intros ht1 ht2 c _ _ H1 H2.
    destruct (rejected order people (names_of people) ht1);
      [by apply elem_of_nil in H1|].
    destruct (rejected order people (names_of people) ht2);
      [by apply elem_of_nil in H2|].
    unfold calls_for in *.
    apply list_elem_of_fmap in H1 as (p1 & -> & _).
    apply list_elem_of_fmap in H2 as (p2 & Heq & _). by injection Heq.
  - intros ht _. destruct (rejected order people (names_of people) ht);
      [constructor|].
    unfold calls_for. apply NoDup_fmap_2_strong; [|by apply NoDup_gene_pairs].
    intros [og1 tg1] [og2 tg2] _ _ Heq. by injection Heq as -> ->.
Qed.





Lemma main_known :
  parents_known people = true →
  main order people
  = normalize (foldl update_call (zero_table (keys people)) (calls order people)).
Proof. intros H. unfold main. by rewrite accumulate_known. Qed.


Lemma accumulated_shape (names : list string) (l : list call) :
  foldl update_call (zero_table names) l
  = (λ k, (k, person_after k zero_distribution l)) <$> names.
Proof.
  rewrite foldl_update_call. unfold zero_table. rewrite <- list_fmap_compose.
  by apply list_fmap_ext.
Qed.




(** [X9] Before [normalize], each bucket of a person holds the sum of the joint
    probabilities of the configurations met by the loops that give the
    person that gene count (or that trait value).  The configurations met
    are, each once, the trait sets that agree with the evidence combined
    with the disjoint pairs of gene sets. *)
Theorem accumulate_marginals :
  ¬ missing_parent people →
  ∃ t, accumulate order people = Ok t
       ∧ keys t = keys people
       ∧ (∀ k d, (k, d) ∈ t →
            (∀ n, (n < 3)%nat →
               gene_bucket d n == weight_where (has_genes k n) (calls order people))
            ∧ (∀ b, trait_bucket d b
                    == weight_where (has_trait k b) (calls order people)))
       ∧ NoDup (calls order people)
       ∧ ∀ c, c ∈ calls order people
              ↔ call_have_trait c ⊆ names_of people
                ∧ rejected order people (names_of people) (call_have_trait c) = false
                ∧ call_one_gene c ## call_two_genes c
                ∧ call_one_gene c ∪ call_two_genes c ⊆ names_of people
                ∧ call_p c = joint_value people (call_one_gene c) (call_two_genes c)
                               (call_have_trait c).
Proof.
  intros E%parents_known_true. rewrite (accumulate_known order order_ok people E).
  eexists. split; [done|]. split_and!.
  - rewrite accumulated_shape. unfold keys. rewrite <- !list_fmap_compose.
    apply list_fmap_ext. by intros i [k p] _.
  - rewrite accumulated_shape.
    intros k d (k0 & Heq & _)%list_elem_of_fmap. injection Heq as -> ->.
    generalize (calls order people). intros l. unfold person_after, weight_where.
    assert (Hgen : ∀ d0,
      (∀ n, (n < 3)%nat →
         gene_bucket (person_after k0 d0 l) n
         == gene_bucket d0 n + weight_where (has_genes k0 n) l)
      ∧ (∀ b, trait_bucket (person_after k0 d0 l) b
              == trait_bucket d0 b + weight_where (has_trait k0 b) l)).
    { unfold person_after, weight_where. induction l as [|c l IH]; intros d0.
      - csimpl. split; intros; ring.
      - cbn [foldl]. destruct (IH (update_person (call_one_gene c) (call_two_genes c)
                                     (call_have_trait c) (call_p c) k0 d0)) as [IHg IHt].
        destruct (update_person_buckets (call_one_gene c) (call_two_genes c)
                    (call_have_trait c) (call_p c) k0 d0) as [Hg Ht].
        split.
        + intros n Hn. rewrite (IHg n Hn), (Hg n Hn). csimpl.
          unfold has_genes at 2. case_decide as Hc.
          * rewrite bool_decide_eq_true_2 by done. ring.
          * rewrite bool_decide_eq_false_2 by done. ring.
        + intros b. rewrite (IHt b), (Ht b). csimpl.
          unfold has_trait at 2. case_decide as Hc.
          * rewrite bool_decide_eq_true_2 by done. ring.
          * rewrite bool_decide_eq_false_2 by done. ring. }
    destruct (Hgen zero_distribution) as [Hg Ht]. split.
    + intros n Hn. unfold person_after, weight_where in Hg. rewrite (Hg n Hn).
      destruct n as [|[|n]]; simpl; ring.
    + intros b. unfold person_after, weight_where in Ht. rewrite (Ht b).
      destruct b; simpl; ring.
  - apply NoDup_calls.
  - apply elem_of_calls.
Qed.

End Main.

Lemma iteration_order_reversed : iteration_order reversed_order.
Proof. intros X. unfold reversed_order. apply reverse_Permutation. Qed.

Lemma loner_no_missing_parent : ¬ missing_parent loner.
Proof. apply parents_known_true. vm_compute. reflexivity. Qed.




Lemma accumulate_marginals_witness :
  iteration_order default_order ∧ ¬ missing_parent loner
  ∧ ∃ t, accumulate default_order loner = Ok t ∧ keys t = keys loner.
Proof.
  split; [exact iteration_order_elements|].
  split; [exact loner_no_missing_parent|].
  destruct (accumulate_marginals default_order iteration_order_elements loner
              loner_no_missing_parent) as (t & Ht & Hk & _).
  exists t. split; [exact Ht | exact Hk].
Defined.


(** * The evidence filter *)

Lemma mismatch_true (people : dict person) (have_trait : gset string) (k : string) :
  mismatch people have_trait k = true
  ↔ ∃ t, evidence people k = Some t ∧ t ≠ bool_decide (k ∈ have_trait).
Proof.
  unfold mismatch. destruct (evidence people k) as [t|].
  - rewrite negb_true_iff, eqb_false_iff. split; [by eauto|].
    by intros (t' & [= ->] & ?).
  - split; [done|]. by intros (t & ? & _).
Qed.

(** [X11] The test of lines 69-73 never raises; it is true exactly when some
    person's known trait differs from the person's membership in
    [have_trait].  A round of the outer loop then leaves the table as it
    is, and otherwise runs the two loops over the gene sets. *)
Theorem trait_round_filter (order : gset string → list string)
    (people : dict person) (have_trait : gset string) :
  iteration_order order →
  ∃ b, fails_evidence order people (names_of people) have_trait = Ok b
       ∧ (b = true
          ↔ ∃ k t, k ∈ keys people ∧ evidence people k = Some t
                   ∧ t ≠ bool_decide (k ∈ have_trait))
       ∧ ∀ probabilities,
           trait_round order people (names_of people) probabilities have_trait
           = if b then Ok probabilities
             else gene_loops order people (names_of people) have_trait probabilities.
Proof.
  intros Horder. exists (rejected order people (names_of people) have_trait).
  split; [by apply fails_evidence_rejected|]. split.
  - rewrite (rejected_true order Horder). split.
    + intros (k & Hk & (t & ? & ?)%mismatch_true). eauto.
    + intros (k & t & Hk & ? & ?). exists k. split; [done|].
      apply mismatch_true. eauto.
  - intros probabilities. unfold trait_round.
    by rewrite (fails_evidence_rejected order Horder).
Qed.

Lemma trait_round_filter_witness :
  iteration_order default_order
  ∧ ∃ b, fails_evidence default_order family0 (names_of family0)
           {["Lily"]}%string = Ok b
         ∧ b = true.
Proof.
  split; [exact iteration_order_elements|].
  destruct (trait_round_filter default_order family0 {["Lily"]}%string
              iteration_order_elements) as (b & Hb & _ & _).
  exists b. split; [exact Hb|].
  vm_compute in Hb. by injection Hb as <-.
Defined.

(** * load_data *)

Lemma dict_get_set {V : Type} (d : dict V) (k k' : string) (v : V) :
  dict_get (dict_set d k v) k' = if decide (k = k') then Some v else dict_get d k'.
Proof.
  induction d as [|[k0 v0] d IH]; simpl.
  - by repeat case_decide.
  - destruct (decide (k0 = k)) as [->|Hne]; simpl.
    + by repeat case_decide.
    + rewrite IH. repeat case_decide; congruence.
Qed.

Lemma keys_dict_set {V : Type} (d : dict V) (k : string) (v : V) :
  keys (dict_set d k v) = if decide (k ∈ keys d) then keys d else keys d ++ [k].
Proof.
  unfold keys. induction d as [|[k0 v0] d IH]; cbn [dict_set].
  - rewrite fmap_nil, decide_False by apply not_elem_of_nil. done.
  - rewrite fmap_cons. cbn [fst].
    destruct (decide (k0 = k)) as [->|Hne].
    + rewrite decide_True by left. done.
    + rewrite fmap_cons, IH. cbn [fst].
      destruct (decide (k ∈ d.*1)) as [Hin|Hout].
      * rewrite decide_True by (by right). done.
      * rewrite decide_False; [done|]. rewrite elem_of_cons. naive_solver.
Qed.

Lemma elem_of_dict_set {V : Type} (d : dict V) (k k' : string) (v v' : V) :
  (k', v') ∈ dict_set d k v → (k' = k ∧ v' = v) ∨ (k', v') ∈ d.
Proof.
  induction d as [|[k0 v0] d IH]; simpl.
  - intros [= -> ->]%list_elem_of_singleton. by left.
  - destruct (decide (k0 = k)) as [->|Hne].
    + intros [[= -> ->]|Hin]%elem_of_cons; [by left|]. right. by right.
    + intros [[= -> ->]|Hin]%elem_of_cons; [right; by left|].
      destruct (IH Hin) as [?|?]; [by left|]. right. by right.
Qed.

Lemma load_row_complete (data : dict person) (row : gmap string string) :
  complete row →
  load_row data row
  = Ok (dict_set data (name (person_of_row row)) (person_of_row row)).
Proof.
  intros ([n Hn] & [m Hm] & [f Hf] & [t Ht]).
  unfold load_row, person_of_row. by rewrite Hn, Hm, Hf, Ht.
Qed.

Lemma load_row_incomplete (data : dict person) (row : gmap string string) :
  ¬ complete row → load_row data row = Raise KeyError.
Proof.
  intros Hnot. unfold load_row.
  destruct (row !! "name"%string) as [n|] eqn:Hn; [|done].
  destruct (row !! "mother"%string) as [m|] eqn:Hm; [|done].
  destruct (row !! "father"%string) as [f|] eqn:Hf; [|done].
  destruct (row !! "trait"%string) as [t|] eqn:Ht; [|done].
  destruct Hnot. unfold complete. rewrite Hn, Hm, Hf, Ht. eauto.
Qed.

#[global] Instance complete_dec (row : gmap string string) : Decision (complete row).
Proof. unfold complete. apply _. Defined.

(** The loop as a fold over complete rows. *)
Lemma load_data_complete (rows : list (gmap string string)) (data : dict person) :
  Forall complete rows →
  for_each load_row rows data
  = Ok (foldl (λ data row, dict_set data (name (person_of_row row)) (person_of_row row))
              data rows).
Proof.
  intros H. rewrite <- for_each_pure. apply for_each_ext.
  intros acc row Hrow. apply load_row_complete.
  rewrite Forall_forall in H. by apply H.
Qed.

(** [X12] [load_data] raises KeyError exactly when some row lacks one of the four
    columns, and returns a table otherwise. *)
Theorem load_data_raises_iff (rows : list (gmap string string)) :
  (load_data rows = Raise KeyError ↔ ∃ row, row ∈ rows ∧ ¬ complete row)
  ∧ (Forall complete rows → ∃ people, load_data rows = Ok people).
Proof.
  unfold load_data. destruct (decide (Forall complete rows)) as [Hall|Hex].
  - rewrite (load_data_complete rows [] Hall). split; [|by eauto].
    split; [done|]. intros (row & Hin & Hnot).
    rewrite Forall_forall in Hall. destruct Hnot. by apply Hall.
  - split; [|done]. apply not_Forall_Exists in Hex; [|apply _].
    apply Exists_exists in Hex as (row & Hin & Hnot). split; [by eauto|]. intros _.
    apply for_each_raise.
    + intros acc r _. destruct (decide (complete r)) as [Hc|Hc].
      * left. rewrite (load_row_complete acc r Hc). eauto.
      * right. by apply load_row_incomplete.
    + exists row. split; [done|]. intros acc. by apply load_row_incomplete.
Qed.

Lemma load_fold_invariant (rows : list (gmap string string)) (data : dict person) :
  NoDup (keys data) → (∀ k p, (k, p) ∈ data → name p = k) →
  let data' := foldl (λ data row,
                        dict_set data (name (person_of_row row)) (person_of_row row))
                     data rows in
  NoDup (keys data') ∧ (∀ k p, (k, p) ∈ data' → name p = k).
Proof.
  revert data. induction rows as [|row rows IH]; intros data Hnd Hname; [done|].
  simpl. apply IH.
  - rewrite keys_dict_set. case_decide as Hin; [done|].
    apply NoDup_app. split_and!; [done| |apply NoDup_singleton].
    intros k Hk ->%list_elem_of_singleton. done.
  - intros k p [[-> ->]|Hin]%elem_of_dict_set; [done|]. by apply Hname.
Qed.

(** [X13] The table that [load_data] returns has every name once as a key, and
    stores under each key a person carrying that name. *)
Theorem load_data_keys (rows : list (gmap string string)) (people : dict person) :
  load_data rows = Ok people →
  NoDup (keys people) ∧ ∀ k p, (k, p) ∈ people → name p = k.
Proof.
  unfold load_data. intros Hload.
  destruct (decide (Forall complete rows)) as [Hall|Hex].
  - rewrite (load_data_complete rows [] Hall) in Hload. injection Hload as <-.
    apply load_fold_invariant; [constructor|]. by intros k p ?%elem_of_nil.
  - apply not_Forall_Exists in Hex; [|apply _].
    apply Exists_exists in Hex as (row & Hin & Hnot).
    rewrite (for_each_raise load_row rows [] KeyError) in Hload; [done| |].
    + intros acc r _. destruct (decide (complete r)) as [Hc|Hc].
      * left. rewrite (load_row_complete acc r Hc). eauto.
      * right. by apply load_row_incomplete.
    + exists row. split; [done|]. intros acc. by apply load_row_incomplete.
Qed.

Lemma load_data_family0 : load_data family0_rows = Ok family0.
Proof. vm_compute. reflexivity. Qed.

Lemma load_data_keys_witness :
  load_data family0_rows = Ok family0
  ∧ NoDup (keys family0) ∧ ∀ k p, (k, p) ∈ family0 → name p = k.
Proof.
  split; [exact load_data_family0|].
  exact (load_data_keys family0_rows family0 load_data_family0).
Defined.

(** [X14] A later row replaces the person an earlier row stored under the same
    name, keeps that person's place in the table, and leaves every other
    person alone. *)
Theorem load_data_last_row_wins (rows : list (gmap string string))
    (row : gmap string string) (people : dict person) :
  load_data rows = Ok people → complete row →
  ∃ people', load_data (rows ++ [row]) = Ok people'
    ∧ dict_get people' (name (person_of_row row)) = Some (person_of_row row)
    ∧ (∀ k, k ≠ name (person_of_row row) → dict_get people' k = dict_get people k)
    ∧ keys people' = if decide (name (person_of_row row) ∈ keys people)
                     then keys people
                     else keys people ++ [name (person_of_row row)].
Proof.
  unfold load_data. intros Hload Hrow.
  rewrite for_each_app, Hload. simpl.
  rewrite (load_row_complete people row Hrow). simpl.
  eexists. split; [done|]. split_and!.
  - rewrite dict_get_set. by rewrite decide_True.
  - intros k Hk. rewrite dict_get_set. by rewrite decide_False.
  - apply keys_dict_set.
Qed.

Lemma load_data_last_row_wins_witness :
  load_data family0_rows = Ok family0
  ∧ complete {[ "name" := "Lily"; "mother" := ""; "father" := ""; "trait" := "1" ]}%string
  ∧ ∃ people',
      load_data (family0_rows
                 ++ [{[ "name" := "Lily"; "mother" := ""; "father" := "";
                        "trait" := "1" ]}%string]) = Ok people'
      ∧ keys people' = keys family0.
Proof.
  split; [exact load_data_family0|].
  assert (Hc : complete {[ "name" := "Lily"; "mother" := ""; "father" := "";
                           "trait" := "1" ]}%string).
  { unfold complete. split_and!; vm_compute; eauto. }
  split; [exact Hc|].
  destruct (load_data_last_row_wins family0_rows _ family0 load_data_family0 Hc)
    as (people' & Hload & _ & _ & Hkeys).
  exists people'. split; [exact Hload|]. rewrite Hkeys. vm_compute. reflexivity.
Defined.

(** * Evidence in the result *)



(** * More on the table and on joint_probability *)

(** [X16] Away from child 0 with parents (1, 2) or (2, 1), the table is the one
    derived from the mutation rate and its rows add up to 1; every entry is
    a probability strictly between 0 and 1. *)
Theorem create_gene_matrix_elsewhere (c pA pB : nat) :
  in_range c pA pB →
  0 < entry create_gene_matrix c pA pB < 1
  ∧ ((pA, pB) ≠ (2, 1)%nat → (pA, pB) ≠ (1, 2)%nat →
     row_sum create_gene_matrix pA pB == 1)
  ∧ ((c, pA, pB) ≠ (0, 2, 1)%nat → (c, pA, pB) ≠ (0, 1, 2)%nat →
     entry create_gene_matrix c pA pB == derived PROBS_mutation c pA pB).
Proof.
  intros Hr. split_and!.
  - by apply create_gene_matrix_positive.
  - destruct Hr as (Hc & HA & HB). each_index c pA pB; vm_compute; reflexivity.
  - destruct Hr as (_ & HA & HB). by apply create_gene_matrix_row_elsewhere.
  - by apply create_gene_matrix_derived_elsewhere.
Qed.

Lemma create_gene_matrix_elsewhere_witness :
  in_range 1 2 0
  ∧ 0 < entry create_gene_matrix 1 2 0 < 1
  ∧ row_sum create_gene_matrix 2 0 == 1.
Proof.
  assert (H : in_range 1 2 0) by (unfold in_range; lia).
  split; [exact H|].
  destruct (create_gene_matrix_elsewhere 1 2 0 H) as (Hb & Hrow & _).
  split; [exact Hb|]. apply Hrow; discriminate.
Defined.

Lemma entry_symmetric (c pA pB : nat) :
  entry create_gene_matrix c pA pB = entry create_gene_matrix c pB pA.
Proof.
  destruct c as [|[|[|c]]], pA as [|[|[|pA]]], pB as [|[|[|pB]]];
    vm_compute; reflexivity.
Qed.

Lemma dict_get_fmap {V W : Type} (f : V → W) (d : dict V) (k : string) :
  dict_get (prod_map id f <$> d) k = f <$> dict_get d k.
Proof.
  induction d as [|[k0 v0] d IH]; [done|]. csimpl.
  case_decide; [done|]. apply IH.
Qed.

Lemma keys_fmap {V W : Type} (f : V → W) (d : dict V) :
  keys (prod_map id f <$> d) = keys d.
Proof.
  unfold keys. rewrite <- list_fmap_compose. apply list_fmap_ext. by intros i [k v] _.
Qed.

Lemma dict_get_Some_elem {V : Type} (d : dict V) (k : string) (v : V) :
  dict_get d k = Some v → (k, v) ∈ d.
Proof.
  induction d as [|[k0 v0] d IH]; simpl; [done|].
  case_decide as Hk; [intros [= <-]; subst; left | intros Hg; right; by apply IH].
Qed.

Lemma forallb_ext_elem {A : Type} (f g : A → bool) (l : list A) :
  (∀ x, x ∈ l → f x = g x) → forallb f l = forallb g l.
Proof.
  induction l as [|x l IH]; intros H; [done|]. simpl.
  rewrite (H x) by left. rewrite IH; [done|]. intros y Hy. apply H. by right.
Qed.

(** [X17] Exchanging mother and father throughout the table changes nothing in
    what [joint_probability] returns, for a table in which every person has
    both parents or neither. *)
Theorem joint_probability_swap_parents (people : dict person)
    (one_gene two_genes have_trait : gset string) :
  both_or_neither people →
  joint_probability (prod_map id swap_parents <$> people)
                    one_gene two_genes have_trait
  = joint_probability people one_gene two_genes have_trait.
Proof.
  intros Hboth.
  assert (Hknown : ∀ k, k ∈ keys people →
            person_known (prod_map id swap_parents <$> people) k
            = person_known people k).
  { intros k [p Hp]%dict_get_keys. unfold person_known.
    rewrite dict_get_fmap, keys_fmap, Hp. simpl.
    destruct (Hboth k p (dict_get_Some_elem _ _ _ Hp)) as [H1 H2].
    destruct (mother p) as [m|], (father p) as [f|]; try done.
    - apply andb_comm.
    - by specialize (H2 eq_refl).
    - by specialize (H1 eq_refl). }
  assert (Hpk : parents_known (prod_map id swap_parents <$> people)
                = parents_known people).
  { unfold parents_known. rewrite keys_fmap.
    apply forallb_ext_elem. intros k Hk. by apply Hknown. }
  destruct (parents_known people) eqn:E.
  - rewrite (joint_probability_known _ _ _ _ E).
    rewrite joint_probability_known by (by rewrite Hpk).
    f_equal. unfold joint_value. rewrite keys_fmap. f_equal.
    apply list_fmap_ext. intros i k Hk%list_elem_of_lookup_2.
    apply dict_get_keys in Hk as [p Hp]. unfold person_value.
    rewrite dict_get_fmap, Hp. simpl.
    destruct (Hboth k p (dict_get_Some_elem _ _ _ Hp)) as [H1 H2].
    destruct (mother p) as [m|], (father p) as [f|]; simpl; try done.
    + by rewrite entry_symmetric.
    + by specialize (H2 eq_refl).
    + by specialize (H1 eq_refl).
  - rewrite (joint_probability_unknown _ _ _ _ E).
    by rewrite joint_probability_unknown by (by rewrite Hpk).
Qed.

Lemma both_or_neither_family0 : both_or_neither family0.
Proof. intros k p Hin. by destruct (proj2 well_formed_family0 k p Hin). Qed.

Lemma joint_probability_swap_parents_witness :
  both_or_neither family0
  ∧ joint_probability (prod_map id swap_parents <$> family0)
      {["Harry"]}%string ∅ {["James"]}%string
    = joint_probability family0 {["Harry"]}%string ∅ {["James"]}%string.
Proof.
  split; [exact both_or_neither_family0|].
  exact (joint_probability_swap_parents family0 {["Harry"]}%string ∅
           {["James"]}%string both_or_neither_family0).
Defined.

(** [X18] With no person in the table, [main] returns the empty table. *)
Theorem main_empty (order : gset string → list string) :
  iteration_order order → main order [] = Ok [].
Proof.
  intros Horder. rewrite (main_known order Horder [] eq_refl).
  rewrite accumulated_shape. reflexivity.
Qed.

Lemma main_empty_witness :
  iteration_order default_order ∧ main default_order [] = Ok [].
Proof.
  split; [exact iteration_order_elements|].
  exact (main_empty default_order iteration_order_elements).
Defined.

(** * The loops of main in binary64

    The same loops over primitive floats: which configurations are met, and
    in which order, is as in the rational reading; only the numbers differ. *)

Lemma float64_PROBS_gene_total (one_gene two_genes : gset string) (person : string) :
  is_Some (Float64.PROBS_gene (genes_of one_gene two_genes person)).
Proof.
  destruct (genes_of_cases one_gene two_genes person) as [-> | [-> | ->]]; by eexists.
Qed.

Lemma float64_PROBS_trait_total (one_gene two_genes : gset string) (person : string)
    (t : bool) :
  is_Some (Float64.PROBS_trait (genes_of one_gene two_genes person) t).
Proof.
  destruct (genes_of_cases one_gene two_genes person) as [-> | [-> | ->]];
    destruct t; by eexists.
Qed.

Lemma float64_getitem_genes_total (one_gene two_genes : gset string) (k f m : string) :
  is_Some (getitem Float64.create_gene_matrix (genes_of one_gene two_genes k)
             (genes_of one_gene two_genes f) (genes_of one_gene two_genes m)).
Proof.
  destruct (genes_of_cases one_gene two_genes k) as [-> | [-> | ->]];
    destruct (genes_of_cases one_gene two_genes f) as [-> | [-> | ->]];
    destruct (genes_of_cases one_gene two_genes m) as [-> | [-> | ->]];
    vm_compute; by eexists.
Qed.

Section Float64JointProbability.

#[local] Opaque Float64.create_gene_matrix.

Variable people : dict person.
Variables one_gene two_genes have_trait : gset string.

Let ref := make_ref people one_gene two_genes have_trait.

Lemma float64_person_factor_known (joint_prob : list float) (person : string) :
  person_known people person = true →
  Float64.person_factor people ref Float64.create_gene_matrix joint_prob person
  = Ok (joint_prob
        ++ [Float64.person_value people one_gene two_genes have_trait person]).
Proof.
  unfold person_known, Float64.person_factor, Float64.person_value, ref.
  destruct (dict_get people person) as [p|] eqn:Hp; [|done]. simpl.
  assert (Hkey : person ∈ keys people) by (apply dict_get_keys; eauto).
  destruct (float64_PROBS_trait_total one_gene two_genes person
              (trait_of have_trait person)) as (tv & Htv).
  destruct (mother p) as [m|].
  - intros [Hm Hf]%andb_true_iff. destruct (father p) as [f|]; [|done].
    apply bool_decide_eq_true in Hm, Hf.
    rewrite !make_ref_lookup, !decide_True by done. simpl.
    rewrite !make_ref_lookup, !decide_True by done. simpl.
    destruct (float64_getitem_genes_total one_gene two_genes person f m) as (gv & Hgv).
    unfold Float64.entry. rewrite Hgv, Htv. done.
  - intros _. rewrite make_ref_lookup, decide_True by done. simpl.
    destruct (float64_PROBS_gene_total one_gene two_genes person) as (gv & Hgv).
    rewrite Hgv, Htv. done.
Qed.

Lemma float64_person_factor_unknown (joint_prob : list float) (person : string) :
  person_known people person = false →
  Float64.person_factor people ref Float64.create_gene_matrix joint_prob person
  = Raise KeyError.
Proof.
  unfold person_known, Float64.person_factor, ref.
  destruct (dict_get people person) as [p|] eqn:Hp; [|done]. simpl.
  assert (Hkey : person ∈ keys people) by (apply dict_get_keys; eauto).
  destruct (mother p) as [m|]; [|done]. intros Hunknown.
  rewrite (make_ref_lookup people one_gene two_genes have_trait person).
  rewrite (decide_True _ _ Hkey). simpl.
  destruct (father p) as [f|]; simpl; [|done].
  rewrite (make_ref_lookup people one_gene two_genes have_trait f).
  destruct (decide (f ∈ keys people)) as [Hf|Hf]; simpl; [|done].
  rewrite (make_ref_lookup people one_gene two_genes have_trait m).
  destruct (decide (m ∈ keys people)) as [Hm|Hm]; simpl; [|done].
  by rewrite !bool_decide_eq_true_2 in Hunknown.
Qed.

Lemma float64_for_each_person_factor (l : list string) (joint_prob : list float) :
  forallb (person_known people) l = true →
  for_each (Float64.person_factor people ref Float64.create_gene_matrix) l joint_prob
  = Ok (joint_prob
        ++ (Float64.person_value people one_gene two_genes have_trait <$> l)).
Proof.
  revert joint_prob. induction l as [|x l IH]; intros joint_prob; simpl.
  - intros _. by rewrite app_nil_r.
  - intros [Hx Hl]%andb_true_iff.
    rewrite (float64_person_factor_known joint_prob x Hx). simpl.
    rewrite IH by done. by rewrite <- app_assoc.
Qed.

Lemma float64_for_each_person_factor_raise (l : list string) (joint_prob : list float) :
  forallb (person_known people) l = false →
  for_each (Float64.person_factor people ref Float64.create_gene_matrix) l joint_prob
  = Raise KeyError.
Proof.
  revert joint_prob. induction l as [|x l IH]; intros joint_prob; simpl; [done|].
  destruct (person_known people x) eqn:Hx; simpl.
  - intros Hl. rewrite (float64_person_factor_known joint_prob x Hx). simpl.
    by apply IH.
  - intros _. by rewrite float64_person_factor_unknown.
Qed.

Lemma float64_joint_probability_known :
  parents_known people = true →
  Float64.joint_probability people one_gene two_genes have_trait
  = Ok (Float64.joint_value people one_gene two_genes have_trait).
Proof.
  intros H. unfold Float64.joint_probability, Float64.joint_value. fold ref.
  by rewrite float64_for_each_person_factor.
Qed.

Lemma float64_joint_probability_unknown :
  parents_known people = false →
  Float64.joint_probability people one_gene two_genes have_trait = Raise KeyError.
Proof.
  intros H. unfold Float64.joint_probability. fold ref.
  by rewrite float64_for_each_person_factor_raise.
Qed.

End Float64JointProbability.

#[local] Transparent Float64.create_gene_matrix.

Lemma float64_gene_loops_pairs (order : gset string → list string)
    (people : dict person) (names have_trait : gset string)
    (probabilities : dict Float64.distribution) :
  Float64.gene_loops order people names have_trait probabilities
  = for_each (Float64.gene_step people have_trait) (gene_pairs order names)
      probabilities.
Proof.
  unfold Float64.gene_loops, gene_pairs.
  by rewrite <- (for_each_nested (Float64.gene_step people have_trait)).
Qed.

Section Float64Accumulate.

Variable order : gset string → list string.
Hypothesis order_ok : iteration_order order.
Variable people : dict person.

Lemma float64_gene_loops_known (have_trait : gset string)
    (probabilities : dict Float64.distribution) :
  parents_known people = true →
  Float64.gene_loops order people (names_of people) have_trait probabilities
  = Ok (foldl Float64.update_call probabilities
          (Float64.calls_for order people (names_of people) have_trait)).
Proof.
  intros H. rewrite float64_gene_loops_pairs. unfold Float64.calls_for.
  rewrite foldl_fmap. rewrite <- for_each_pure. apply for_each_ext.
  intros acc pair _. unfold Float64.gene_step.
  by rewrite float64_joint_probability_known.
Qed.

Lemma float64_gene_loops_unknown (have_trait : gset string)
    (probabilities : dict Float64.distribution) :
  parents_known people = false →
  Float64.gene_loops order people (names_of people) have_trait probabilities
  = Raise KeyError.
Proof.
  intros H. rewrite float64_gene_loops_pairs.
  assert (Hstep : ∀ acc pair,
            Float64.gene_step people have_trait acc pair = Raise KeyError).
  { intros acc pair. unfold Float64.gene_step.
    by rewrite float64_joint_probability_unknown. }
  apply for_each_raise; [by auto|].
  exists (∅, ∅). split; [|by auto].
  apply (elem_of_gene_pairs order order_ok). set_solver.
Qed.

Lemma float64_trait_round_known (probabilities : dict Float64.distribution)
    (have_trait : gset string) :
  parents_known people = true →
  Float64.trait_round order people (names_of people) probabilities have_trait
  = Ok (foldl Float64.update_call probabilities
          (if rejected order people (names_of people) have_trait then []
           else Float64.calls_for order people (names_of people) have_trait)).
Proof.
  intros H. unfold Float64.trait_round.
  rewrite (fails_evidence_rejected order order_ok). simpl.
  destruct (rejected order people (names_of people) have_trait); [done|].
  by apply float64_gene_loops_known.
Qed.

Lemma float64_accumulate_known :
  parents_known people = true →
  Float64.accumulate order people
  = Ok (foldl Float64.update_call (Float64.zero_table (keys people))
          (Float64.calls order people)).
Proof.
  intros H. unfold Float64.accumulate, Float64.calls.
  fold (names_of people).
  rewrite foldl_bind, <- for_each_pure. apply for_each_ext.
  intros acc have_trait _. by apply float64_trait_round_known.
Qed.

Lemma float64_accumulate_unknown :
  parents_known people = false → Float64.accumulate order people = Raise KeyError.
Proof.
  intros H. unfold Float64.accumulate. fold (names_of people).
  apply for_each_raise.
  - intros acc have_trait _. unfold Float64.trait_round.
    rewrite (fails_evidence_rejected order order_ok). simpl.
    destruct (rejected order people (names_of people) have_trait); [by eauto|].
    right. by apply float64_gene_loops_unknown.
  - exists (known_true people).
    destruct (known_true_accepted order order_ok people) as [Hsub Hacc].
    split; [by apply (elem_of_powerset order order_ok)|].
    intros acc. unfold Float64.trait_round.
    rewrite (fails_evidence_rejected order order_ok). simpl.
    rewrite Hacc. by apply float64_gene_loops_unknown.
Qed.


Lemma float64_NoDup_calls : NoDup (Float64.calls order people).
Proof.
  unfold Float64.calls. apply NoDup_bind; [| |by apply NoDup_powerset].
  - intros ht1 ht2 c _ _ H1 H2.
    destruct (rejected order people (names_of people) ht1);
      [by apply elem_of_nil in H1|].
    destruct (rejected order people (names_of people) ht2);
      [by apply elem_of_nil in H2|].
    unfold Float64.calls_for in *.
    apply list_elem_of_fmap in H1 as (p1 & -> & _).
    apply list_elem_of_fmap in H2 as (p2 & Heq & _). by injection Heq.
  - intros ht _. destruct (rejected order people (names_of people) ht);
      [constructor|].
    unfold Float64.calls_for. apply NoDup_fmap_2_strong; [|by apply NoDup_gene_pairs].
    intros [og1 tg1] [og2 tg2] _ _ Heq. by injection Heq as -> ->.
Qed.

End Float64Accumulate.

Lemma float64_calls_order_irrelevant (order1 order2 : gset string → list string)
    (people : dict person) :
  iteration_order order1 → iteration_order order2 →
  Float64.calls order1 people ≡ₚ Float64.calls order2 people.
Proof.
  intros H1 H2. unfold Float64.calls. apply bind_permutation_ext.
  - by apply powerset_order_irrelevant.
  - intros have_trait. rewrite (rejected_order_irrelevant order1 order2 H1 H2).
    destruct (rejected order2 _ _ _); [done|].
    unfold Float64.calls_for.
    by rewrite (gene_pairs_order_irrelevant order1 order2 H1 H2).
Qed.

(** * The whole of main in binary64 *)

Lemma float64_main_known (order : gset string → list string) (people : dict person) :
  iteration_order order → parents_known people = true →
  Float64.main order people
  = Float64.normalize
      (foldl Float64.update_call (Float64.zero_table (keys people))
         (Float64.calls order people)).
Proof.
  intros Horder H. unfold Float64.main.
  by rewrite (float64_accumulate_known order Horder people H).
Qed.

Lemma float64_main_unknown (order : gset string → list string)
    (people : dict person) :
  iteration_order order → parents_known people = false →
  Float64.main order people = Raise KeyError.
Proof.
  intros Horder H. unfold Float64.main.
  by rewrite (float64_accumulate_unknown order Horder people H).
Qed.


(** [X6] [joint_probability] raises KeyError exactly when a parent is missing
    from the table, and otherwise returns a number, which is not negative: it
    raises nothing else.  It raises and returns on the same tables in
    binary64. *)
Theorem joint_probability_raises_iff (people : dict person)
    (one_gene two_genes have_trait : gset string) :
  (joint_probability people one_gene two_genes have_trait = Raise KeyError
   ↔ missing_parent people)
  ∧ (¬ missing_parent people →
     ∃ v, joint_probability people one_gene two_genes have_trait = Ok v ∧ 0 <= v)
  ∧ (Float64.joint_probability people one_gene two_genes have_trait = Raise KeyError
     ↔ missing_parent people)
  ∧ (¬ missing_parent people →
     ∃ v, Float64.joint_probability people one_gene two_genes have_trait = Ok v).
Proof.
  destruct (parents_known people) eqn:E.
  - rewrite (joint_probability_known _ _ _ _ E).
    rewrite (float64_joint_probability_known _ _ _ _ E).
    pose proof (proj1 (parents_known_true people) E) as Hnot. split_and!.
    + split; [done|]. intros H. by destruct Hnot.
    + intros _. eexists. split; [done|]. by apply Qlt_le_weak, joint_value_pos.
    + split; [done|]. intros H. by destruct Hnot.
    + intros _. by eexists.
  - rewrite (joint_probability_unknown _ _ _ _ E).
    rewrite (float64_joint_probability_unknown _ _ _ _ E).
    pose proof (proj1 (parents_known_false people) E) as Hmiss. split_and!.
    + done.
    + intros H. by destruct H.
    + done.
    + intros H. by destruct H.
Qed.




(** [C9] In binary64, a call of [update] with [p] adds [p] to one gene
    bucket and one trait bucket of every person and leaves the other
    buckets and the keys alone; hence after any run of calls on the all-zero
    table every bucket holds the sum, taken in the order of the calls, of
    the [p]s of the calls that selected it.  The loops of [main] are such a
    run of calls. *)
Theorem update_adds_to_one_bucket :
  (∀ (probabilities : dict Float64.distribution) one_gene two_genes have_trait p,
      keys (Float64.update probabilities one_gene two_genes have_trait p)
      = keys probabilities
      ∧ ∀ i k d, probabilities !! i = Some (k, d) →
          ∃ d', Float64.update probabilities one_gene two_genes have_trait p !! i
                = Some (k, d')
            ∧ (∀ n, (n < 3)%nat →
                 Float64.gene_bucket d' n
                 = if decide (n = genes_of one_gene two_genes k)
                   then PrimFloat.add (Float64.gene_bucket d n) p
                   else Float64.gene_bucket d n)
            ∧ (∀ t, Float64.trait_bucket d' t
                    = if decide (t = trait_of have_trait k)
                      then PrimFloat.add (Float64.trait_bucket d t) p
                      else Float64.trait_bucket d t))
  ∧ (∀ (names : list string) (calls : list Float64.call) k d,
        (k, d) ∈ foldl Float64.update_call (Float64.zero_table names) calls →
        (∀ n, (n < 3)%nat →
           Float64.gene_bucket d n
           = Float64.running_sum (Float64.selected (Float64.has_genes k n) calls))
        ∧ (∀ b, Float64.trait_bucket d b
                = Float64.running_sum
                    (Float64.selected (Float64.has_trait k b) calls)))
  ∧ (∀ (order : gset string → list string) (people : dict person),
        iteration_order order → ¬ missing_parent people →
        Float64.accumulate order people
        = Ok (foldl Float64.update_call (Float64.zero_table (keys people))
                (Float64.calls order people))).
Proof.
  split_and!.
  - intros probabilities one_gene two_genes have_trait p. split.
    + unfold Float64.update, keys. rewrite <- list_fmap_compose.
      apply list_fmap_ext. by intros i [k d] _.
    + intros i k d Hi.
      exists (Float64.update_person one_gene two_genes have_trait p k d).
      unfold Float64.update. rewrite list_lookup_fmap, Hi. split; [done|].
      apply float64_update_person_buckets.
  - intros names calls k d. rewrite float64_foldl_update_call.
    intros ([k' d0] & Heq & Hin)%list_elem_of_fmap.
    apply list_elem_of_fmap in Hin as (k0 & Heq0 & _).
    injection Heq0 as -> ->. injection Heq as -> ->.
    destruct (float64_person_after_buckets k0 calls Float64.zero_distribution)
      as [Hg Ht].
    split.
    + intros n Hn. rewrite (Hg n Hn). by destruct n as [|[|n]].
    + intros b. rewrite (Ht b). by destruct b.
  - intros order people Horder E%parents_known_true.
    by apply float64_accumulate_known.
Qed.

(** A person's gene buckets and trait buckets add the same [p]s in different
    groupings, and binary64 rounds them apart: when [main] has made its six
    calls of [update] for a lone person without evidence, the gene buckets
    add up to 1 and the trait buckets to 0.9999999999999999.  For the family
    of [data/family0.csv] the gene buckets of Harry and of James add up to
    different totals. *)
Lemma update_totals_differ :
  (∃ d, Float64.accumulate default_order loner = Ok [("Ann"%string, d)]
        ∧ Float64.gene_total d = 1%float
        ∧ Float64.trait_total d = 0.99999999999999989%float
        ∧ PrimFloat.eqb (Float64.gene_total d) (Float64.trait_total d) = false)
  ∧ ∃ t h j, Float64.accumulate default_order family0 = Ok t
        ∧ t !! 0%nat = Some ("Harry"%string, h)
        ∧ t !! 1%nat = Some ("James"%string, j)
        ∧ Float64.gene_total h = 0.031817582769999998%float
        ∧ Float64.gene_total j = 0.031817582770000005%float
        ∧ PrimFloat.eqb (Float64.gene_total h) (Float64.gene_total j) = false.
Proof.
  split.
  - eexists. split; [vm_compute; reflexivity|].
    split_and!; vm_compute; reflexivity.
  - eexists _, _, _. split; [vm_compute; reflexivity|].
    split; [reflexivity|]. split; [reflexivity|].
    split_and!; vm_compute; reflexivity.
Qed.

(** [C10] For two iteration orders of Python's sets, the enumeration yields
    the same subsets, each once, and [main] makes the same calls of
    [update], each once, with the same binary64 joint probabilities, but
    in another order; under either order it raises KeyError when a parent is
    missing and otherwise normalizes the table those calls leave. *)
Theorem main_same_calls_any_order (order1 order2 : gset string → list string)
    (people : dict person) :
  iteration_order order1 → iteration_order order2 →
  (∀ s : gset string,
      powerset order1 s ≡ₚ powerset order2 s
      ∧ NoDup (powerset order1 s)
      ∧ ∀ X, X ∈ powerset order1 s ↔ X ⊆ s)
  ∧ Float64.calls order1 people ≡ₚ Float64.calls order2 people
  ∧ NoDup (Float64.calls order1 people)
  ∧ (missing_parent people →
     Float64.main order1 people = Raise KeyError
     ∧ Float64.main order2 people = Raise KeyError)
  ∧ (¬ missing_parent people →
     Float64.main order1 people
     = Float64.normalize
         (foldl Float64.update_call (Float64.zero_table (keys people))
            (Float64.calls order1 people))
     ∧ Float64.main order2 people
       = Float64.normalize
           (foldl Float64.update_call (Float64.zero_table (keys people))
              (Float64.calls order2 people))).
Proof.
  intros H1 H2. split_and!.
  - intros s. split_and!.
    + by apply powerset_order_irrelevant.
    + by apply NoDup_powerset.
    + intros X. by apply elem_of_powerset.
  - by apply float64_calls_order_irrelevant.
  - by apply float64_NoDup_calls.
  - intros E%parents_known_false.
    by rewrite (float64_main_unknown order1 people H1 E),
               (float64_main_unknown order2 people H2 E).
  - intros E%parents_known_true.
    by rewrite (float64_main_known order1 people H1 E),
               (float64_main_known order2 people H2 E).
Qed.

Lemma main_same_calls_any_order_witness :
  iteration_order default_order ∧ iteration_order reversed_order
  ∧ Float64.calls default_order family0 ≡ₚ Float64.calls reversed_order family0
  ∧ NoDup (Float64.calls default_order family0).
Proof.
  split; [exact iteration_order_elements|].
  split; [exact iteration_order_reversed|].
  destruct (main_same_calls_any_order default_order reversed_order family0
              iteration_order_elements iteration_order_reversed)
    as (_ & Hperm & Hnodup & _).
  split; [exact Hperm | exact Hnodup].
Defined.

(** The output of [main] depends on the order in which the sets are
    iterated: for the family of [data/family0.csv], two orders leave
    Harry's probability of the trait one bit apart. *)
Lemma main_depends_on_order :
  iteration_order default_order ∧ iteration_order reversed_order
  ∧ ∃ t1 t2 d1 d2,
      Float64.main default_order family0 = Ok t1
      ∧ Float64.main reversed_order family0 = Ok t2
      ∧ t1 !! 0%nat = Some ("Harry"%string, d1)
      ∧ t2 !! 0%nat = Some ("Harry"%string, d2)
      ∧ Float64.trait_True d1 = 0.26651130348454183%float
      ∧ Float64.trait_True d2 = 0.26651130348454188%float
      ∧ PrimFloat.eqb (Float64.trait_True d1) (Float64.trait_True d2) = false.
Proof.
  split; [exact iteration_order_elements|].
  split; [exact iteration_order_reversed|].
  eexists _, _, _, _.
  split; [vm_compute; reflexivity|]. split; [vm_compute; reflexivity|].
  split; [reflexivity|]. split; [reflexivity|].
  split_and!; vm_compute; reflexivity.
Qed.









(** * Where binary64 departs from exact arithmetic

    Runs of the binary64 definitions that show what the rational reading
    must not be taken to say. *)

(** The order of the calls of [update] shows in the last bit of a bucket. *)
Lemma float64_update_order_matters :
  ∃ d1 d2,
    foldl Float64.update_call (Float64.zero_table ["Ann"%string])
      [Float64.Call ∅ ∅ ∅ 0.1; Float64.Call ∅ ∅ ∅ 0.2; Float64.Call ∅ ∅ ∅ 0.3]
    = [("Ann"%string, d1)]
    ∧ foldl Float64.update_call (Float64.zero_table ["Ann"%string])
        [Float64.Call ∅ ∅ ∅ 0.3; Float64.Call ∅ ∅ ∅ 0.2; Float64.Call ∅ ∅ ∅ 0.1]
      = [("Ann"%string, d2)]
    ∧ Float64.gene_0 d1 = 0.60000000000000009%float
    ∧ Float64.gene_0 d2 = 0.59999999999999998%float.
Proof.
  eexists _, _. split; [vm_compute; reflexivity|].
  split; [vm_compute; reflexivity|]. split; vm_compute; reflexivity.
Qed.

(** [main] leaves sums that are 1 only up to rounding: for the lone person
    without evidence it returns 0.030000000000000002 for one copy of the
    gene and 0.032900000000000006 for the trait. *)
Lemma float64_main_loner :
  Float64.main default_order loner =
  Ok [("Ann"%string,
       Float64.Distribution 0.95999999999999996 0.030000000000000002 0.01
         0.032900000000000006 0.96710000000000007)].
Proof. vm_compute. reflexivity. Qed.

(** A sum too small for its reciprocal: [normalize] returns infinity and
    not-a-number instead of raising. *)
Lemma float64_normalize_overflow :
  ∃ d, Float64.normalize
         [("Ann"%string, Float64.Distribution 5e-324 0 0 1 0)]
       = Ok [("Ann"%string, d)]
       ∧ Float64.gene_0 d = infinity
       ∧ PrimFloat.is_nan (Float64.gene_1 d) = true.
Proof.
  eexists. split; [vm_compute; reflexivity|]. split; vm_compute; reflexivity.
Qed.

(** The product of [joint_probability] underflows to zero: for 140 persons
    without parents, all with two copies of the gene and without the trait,
    it multiplies 140 factors 0.0035 and returns 0.0. *)
Lemma float64_joint_probability_underflow :
  ¬ missing_parent (Float64.crowd 140)
  ∧ Float64.joint_probability (Float64.crowd 140)
      ∅ (names_of (Float64.crowd 140)) ∅ = Ok 0%float.
Proof.
  split; [apply parents_known_true|]; vm_compute; reflexivity.
Qed.


(** For the family of [data/family0.csv], under either order, the sums that
    [main] leaves are within 1e-9 of 1, though not all equal to 1. *)
Lemma float64_main_family0_sums (order : gset string → list string) :
  order = default_order ∨ order = reversed_order →
  ∃ t, Float64.main order family0 = Ok t
       ∧ forallb (λ kd : string * Float64.distribution,
                    Float64.within 1e-9 (Float64.gene_total kd.2) 1
                    && Float64.within 1e-9 (Float64.trait_total kd.2) 1) t = true
       ∧ existsb (λ kd : string * Float64.distribution,
                    negb (PrimFloat.eqb (Float64.gene_total kd.2) 1
                          && PrimFloat.eqb (Float64.trait_total kd.2) 1)) t = true.
Proof.
  intros [-> | ->]; eexists; (split; [vm_compute; reflexivity|]);
    split; vm_compute; reflexivity.
Qed.
